(** * Text analysis API: word ranking, last-analysis store and term search

    A shallow embedding of the backend of the text analysis service:
    the [TextProcessor] class (word statistics post-processing, the
    single-row [last_analysis] table and the term search) and the two
    routes that drive it.

    JavaScript values are embedded as follows.
    - A string is the sequence of its UTF-16 code units ([JsString.t]).
    - The [count] of a word is a Number holding an integer; the embedding
      uses [Z] for these, with [JsNumber.add] and [JsNumber.sub] for [+] and
      [-], which round the exact result to the nearest double as IEEE-754
      does, and the equality of integers for [!==].
    - The table keeps TEXT as UTF-8: a string is read back with each
      unpaired surrogate replaced by U+FFFD ([JsString.toWellFormed]).
    - [String.prototype.localeCompare] depends on the host locale and is
      a parameter of the development, assumed to be a consistent
      comparator as ECMA-262 requires.
    - Promises are awaited one after the other inside a request, so a
      request handler is a sequential program over a [World] holding the
      table, the console and the behaviour of the collaborators. *)

From Stdlib Require Import ZArith NArith List String Ascii Bool Lia.
From Stdlib Require Import Permutation Sorted.

Set Warnings "-register-all".
Import ListNotations.
Open Scope Z_scope.

(** ** JavaScript strings *)

Module JsString.

Definition codeunit := N.
Definition t := list codeunit.

(** Source literals are written as Rocq strings. *)
Definition lit (s : string) : t := map N_of_ascii (list_ascii_of_string s).

Definition eqb (a b : t) : bool :=
  if list_eq_dec N.eq_dec a b then true else false.

(** [isPrefix p s]: the substring of [s] of length [|p|] at index 0 is [p]. *)
Fixpoint isPrefix (p s : t) : bool :=
  match p, s with
  | [], _ => true
  | _ :: _, [] => false
  | a :: p', b :: s' => (a =? b)%N && isPrefix p' s'
  end.

(** StringIndexOf of ECMA-262: the least index [i >= from] at which
    [searchValue] occurs in the string, scanning upwards. *)
Fixpoint stringIndexOf (s searchValue : t) (from : nat) : option nat :=
  if isPrefix searchValue s then Some from
  else match s with
       | [] => None
       | _ :: s' => stringIndexOf s' searchValue (S from)
       end.

(** [s.includes(searchString)] *)
Definition includes (s searchString : t) : bool :=
  match stringIndexOf s searchString 0 with
  | Some _ => true
  | None => false
  end.

(** WhiteSpace and LineTerminator code points of ECMA-262. *)
Definition isWhiteSpace (c : codeunit) : bool :=
  existsb (N.eqb c)
    [9; 10; 11; 12; 13; 32; 160; 5760; 8232; 8233; 8239; 8287; 12288; 65279]%N
  || ((8192 <=? c) && (c <=? 8202))%N.

Fixpoint trimStart (s : t) : t :=
  match s with
  | [] => []
  | c :: s' => if isWhiteSpace c then trimStart s' else s
  end.

(** [s.trim()] *)
Definition trim (s : t) : t := rev (trimStart (rev (trimStart s))).

(** Code-unit order, the ordering of [<] on JavaScript strings. *)
Fixpoint codeUnitCompare (a b : t) : Z :=
  match a, b with
  | [], [] => 0
  | [], _ :: _ => -1
  | _ :: _, [] => 1
  | x :: a', y :: b' =>
      match (x ?= y)%N with
      | Lt => -1
      | Gt => 1
      | Eq => codeUnitCompare a' b'
      end
  end.

(** Surrogate code units. *)
Definition isHighSurrogate (c : codeunit) : bool :=
  ((55296 <=? c) && (c <=? 56319))%N.

Definition isLowSurrogate (c : codeunit) : bool :=
  ((56320 <=? c) && (c <=? 57343))%N.

(** [s.toWellFormed()]: every surrogate that is not half of a pair becomes
    U+FFFD. It is what encoding a string to UTF-8 and decoding it gives. *)
Fixpoint toWellFormed (s : t) : t :=
  match s with
  | [] => []
  | c :: s' =>
      if isHighSurrogate c then
        match s' with
        | d :: s'' =>
            if isLowSurrogate d then c :: d :: toWellFormed s''
            else 65533%N :: toWellFormed s'
        | [] => [65533%N]
        end
      else if isLowSurrogate c then 65533%N :: toWellFormed s'
      else c :: toWellFormed s'
  end.

(** [s.isWellFormed()]: no unpaired surrogate. *)
Fixpoint isWellFormed (s : t) : bool :=
  match s with
  | [] => true
  | c :: s' =>
      if isHighSurrogate c then
        match s' with
        | d :: s'' => isLowSurrogate d && isWellFormed s''
        | [] => false
        end
      else negb (isLowSurrogate c) && isWellFormed s'
  end.

End JsString.

(** ** JavaScript numbers holding integers *)

Module JsNumber.

(** The double nearest to the integer [z], ties to the even significand of
    53 bits. Integers up to 2^53 in absolute value are doubles themselves.
    The carrier has no Infinity: the result is the one of IEEE-754 as long
    as it is below 2^1024 in absolute value. *)
Definition round_to_double (z : Z) : Z :=
  let a := Z.abs z in
  if a <? 2 ^ 53 then z
  else
    let e := Z.log2 a - 52 in
    let q := a / 2 ^ e in
    let r := a mod 2 ^ e in
    let half := 2 ^ (e - 1) in
    let q' := if (half <? r) || ((r =? half) && Z.odd q) then q + 1 else q in
    Z.sgn z * (q' * 2 ^ e).

(** [a + b] on two doubles that hold integers. *)
Definition add (a b : Z) : Z := round_to_double (a + b).

(** [a - b] on two doubles that hold integers. *)
Definition sub (a b : Z) : Z := round_to_double (a - b).

End JsNumber.

Definition js : string -> JsString.t := JsString.lit.

(** ** Word statistics *)

(** One element of [aiResult.words]. *)
Record WordStat := mkWordStat {
  word : JsString.t;
  count : Z;
  isStopWord : bool
}.

(** The parsed answer of the model. *)
Record AiResult := mkAiResult {
  ai_idiom : JsString.t;
  ai_sentiment : JsString.t;
  words : list WordStat
}.

(** The object stored in [this.output] on success. *)
Record AnalysisSummary := mkSummary {
  idiom : JsString.t;
  sentiment : JsString.t;
  total_words : Z;
  top_5_words : list WordStat;
  non_stopwords : list WordStat;
  stopwords : list WordStat
}.

(** ** Array.prototype.sort and slice *)

Section ArraySort.

Context {A : Type}.
Variable comparefn : A -> A -> Z.

(** [x] goes in front of the first element it is strictly smaller than,
    hence behind every element it ties with. *)
Fixpoint insert (x : A) (l : list A) : list A :=
  match l with
  | [] => [x]
  | y :: l' => if comparefn x y <? 0 then x :: l else y :: insert x l'
  end.

(** The elements are taken left to right and inserted in the sorted
    prefix. [sort_unique] below shows that every stable sorting procedure
    returns this list when the comparator is consistent. *)
Definition sort_from (acc l : list A) : list A :=
  fold_left (fun acc x => insert x acc) l acc.

Definition sort (l : list A) : list A := sort_from [] l.

(** [a] may stand before [b]. *)
Definition cmp_le (a b : A) : Prop := comparefn a b <= 0.

(** [a] and [b] tie. *)
Definition ties (a b : A) : bool := comparefn a b =? 0.

(** A consistent comparator (ECMA-262, Array.prototype.sort). *)
Definition consistent : Prop :=
  (forall a b, Z.sgn (comparefn a b) = - Z.sgn (comparefn b a)) /\
  (forall a b c, comparefn a b <= 0 -> comparefn b c <= 0 -> comparefn a c <= 0).

End ArraySort.

(** [l.slice(start, end)] for non-negative indices. *)
Definition slice {A : Type} (start stop : nat) (l : list A) : list A :=
  firstn (stop - start) (skipn start l).

(** ** The data processing pipeline of [inputIAData] *)

Section Ranking.

Variable localeCompare : JsString.t -> JsString.t -> Z.

Definition sortByCountAndAlpha (a b : WordStat) : Z :=
  if negb (count b =? count a) then JsNumber.sub (count b) (count a)
  else localeCompare (word a) (word b).

Definition sum_counts (ws : list WordStat) : Z :=
  fold_left (fun sum w => JsNumber.add sum (count w)) ws 0.

Definition nonStopWords (ws : list WordStat) : list WordStat :=
  sort sortByCountAndAlpha (filter (fun w => negb (isStopWord w)) ws).

Definition stopWords (ws : list WordStat) : list WordStat :=
  sort sortByCountAndAlpha (filter (fun w => isStopWord w) ws).

Definition top5NonStopWords (ws : list WordStat) : list WordStat :=
  slice 0 5 (nonStopWords ws).

(** The object assigned to [this.output] when the model answered. *)
Definition summarize (aiResult : AiResult) : AnalysisSummary :=
  {| idiom := ai_idiom aiResult;
     sentiment := ai_sentiment aiResult;
     total_words := sum_counts (words aiResult);
     top_5_words := top5NonStopWords (words aiResult);
     non_stopwords := nonStopWords (words aiResult);
     stopwords := stopWords (words aiResult) |}.

End Ranking.

(** ** The world of a request *)

(** A row of [last_analysis (id, text, created_at)], with the text as a read
    returns it. *)
Record Row := mkRow {
  id : Z;
  text : JsString.t;
  created_at : Z
}.

Inductive LogEntry :=
| LogValue (lastAnalysis : option JsString.t)
| LogError (label message : string).

(** [last_analysis] and [sqlite_sequence] are the database file; [now] is
    CURRENT_TIMESTAMP; [faults] is the outcome of the coming storage calls,
    in order ([Some msg]: the call is rejected with [msg]; nothing left:
    every call succeeds); [model] is the answer of the model to an API key
    and a text, [None] when the call fails or its content does not parse
    as the requested JSON. *)
Record World := mkWorld {
  last_analysis : list Row;
  sqlite_sequence : Z;
  now : Z;
  faults : list (option string);
  console : list LogEntry;
  PUBLIC_API_KEY : JsString.t;
  model : JsString.t -> JsString.t -> option AiResult
}.

Definition set_table (rows : list Row) (seq : Z) (w : World) : World :=
  {| last_analysis := rows; sqlite_sequence := seq; now := now w;
     faults := faults w; console := console w;
     PUBLIC_API_KEY := PUBLIC_API_KEY w; model := model w |}.

Definition set_faults (fs : list (option string)) (w : World) : World :=
  {| last_analysis := last_analysis w; sqlite_sequence := sqlite_sequence w;
     now := now w; faults := fs; console := console w;
     PUBLIC_API_KEY := PUBLIC_API_KEY w; model := model w |}.

Definition add_log (e : LogEntry) (w : World) : World :=
  {| last_analysis := last_analysis w; sqlite_sequence := sqlite_sequence w;
     now := now w; faults := faults w; console := console w ++ [e];
     PUBLIC_API_KEY := PUBLIC_API_KEY w; model := model w |}.

(** ** Sequential JavaScript with exceptions *)

Record JsError := mkError { message : string }.

Inductive Completion (A : Type) :=
| Normal (a : A)
| Throw (err : JsError).
Arguments Normal {A} a.
Arguments Throw {A} err.

(** A computation runs in a world and completes normally or abruptly; what
    it did to the world before throwing stays done. *)
Definition Js (A : Type) : Type := World -> Completion A * World.

Definition ret {A} (a : A) : Js A := fun w => (Normal a, w).

Definition throw {A} (err : JsError) : Js A := fun w => (Throw err, w).

Definition bind {A B} (m : Js A) (k : A -> Js B) : Js B :=
  fun w =>
    match m w with
    | (Normal a, w') => k a w'
    | (Throw err, w') => (Throw err, w')
    end.

Definition try_catch {A} (body : Js A) (handler : JsError -> Js A) : Js A :=
  fun w =>
    match body w with
    | (Normal a, w') => (Normal a, w')
    | (Throw err, w') => handler err w'
    end.

Declare Scope js_scope.
Delimit Scope js_scope with js.
Notation "x <- m ;; k" := (bind m (fun x => k))
  (at level 61, m at next level, right associativity) : js_scope.
Notation "m ;;; k" := (bind m (fun _ => k))
  (at level 61, right associativity) : js_scope.
Open Scope js_scope.

Definition console_log (lastAnalysis : option JsString.t) : Js unit :=
  fun w => (Normal tt, add_log (LogValue lastAnalysis) w).

Definition console_error (label message : string) : Js unit :=
  fun w => (Normal tt, add_log (LogError label message) w).

Definition getenv_PUBLIC_API_KEY : Js JsString.t :=
  fun w => (Normal (PUBLIC_API_KEY w), w).

(** ** db.js: the promisified sqlite3 calls *)

(** A storage call takes the next outcome of the storage layer. *)
Definition storage_call {A} (op : World -> A * World) : Js A :=
  fun w =>
    match faults w with
    | Some msg :: fs => (Throw (mkError msg), set_faults fs w)
    | None :: fs => let (a, w') := op (set_faults fs w) in (Normal a, w')
    | [] => let (a, w') := op w in (Normal a, w')
    end.

(** The row of greatest [id]. *)
Fixpoint order_by_id_desc_limit_1 (rows : list Row) : option Row :=
  match rows with
  | [] => None
  | r :: rs =>
      match order_by_id_desc_limit_1 rs with
      | None => Some r
      | Some r' => if id r' <? id r then Some r else Some r'
      end
  end.

Definition max_rowid (rows : list Row) : Z :=
  fold_right (fun r m => Z.max (id r) m) 0 rows.

(** dbGet('SELECT text FROM last_analysis ORDER BY id DESC LIMIT 1') *)
Definition dbGet_select_last_text : Js (option JsString.t) :=
  storage_call (fun w =>
    (option_map text (order_by_id_desc_limit_1 (last_analysis w)), w)).

(** dbRun('DELETE FROM last_analysis') *)
Definition dbRun_delete_all : Js unit :=
  storage_call (fun w => (tt, set_table [] (sqlite_sequence w) w)).

(** dbRun('INSERT INTO last_analysis (text) VALUES (?)', [text]); the id is
    the AUTOINCREMENT one. The string is bound as UTF-8, so the row reads
    back as the well-formed version of the text. *)
Definition dbRun_insert (t : JsString.t) : Js unit :=
  storage_call (fun w =>
    let rowid := Z.max (sqlite_sequence w) (max_rowid (last_analysis w)) + 1 in
    (tt, set_table
           (last_analysis w ++ [mkRow rowid (JsString.toWellFormed t) (now w)])
           rowid w)).

(** axios.post to the chat completions endpoint, then JSON.parse of the
    content of the first choice. *)
Definition axios_post_and_parse (apiKey t : JsString.t) : Js AiResult :=
  fun w =>
    match model w apiKey t with
    | Some aiResult => (Normal aiResult, w)
    | None => (Throw (mkError "Request failed"), w)
    end.

(** ** classes/TextProcessor.js *)

(** The value of [this.output]: the summary or [{ error }]. *)
Inductive Output :=
| Summary (s : AnalysisSummary)
| ErrorOutput (error : string).

Record TextProcessor := mkTextProcessor {
  publicAPI : JsString.t;
  input : option JsString.t;
  output : option Output;
  termFoundedInLastAnalysis : bool
}.

(** [new TextProcessor(apiKey)] *)
Definition new_TextProcessor (apiKey : JsString.t) : TextProcessor :=
  {| publicAPI := apiKey; input := None; output := None;
     termFoundedInLastAnalysis := false |}.

Definition set_input (text : JsString.t) (this : TextProcessor) : TextProcessor :=
  {| publicAPI := publicAPI this; input := Some text; output := output this;
     termFoundedInLastAnalysis := termFoundedInLastAnalysis this |}.

Definition set_output (o : Output) (this : TextProcessor) : TextProcessor :=
  {| publicAPI := publicAPI this; input := input this; output := Some o;
     termFoundedInLastAnalysis := termFoundedInLastAnalysis this |}.

Definition set_termFounded (b : bool) (this : TextProcessor) : TextProcessor :=
  {| publicAPI := publicAPI this; input := input this; output := output this;
     termFoundedInLastAnalysis := b |}.

(** ** routes.js: responses *)

Inductive json :=
| JNull
| JBool (b : bool)
| JNum (n : Z)
| JStr (s : JsString.t)
| JArr (elts : list json)
| JObj (props : list (string * json)).

Record Response := mkResponse {
  status : Z;
  body : json
}.

Definition json_of_WordStat (w : WordStat) : json :=
  JObj [("word", JStr (word w)); ("count", JNum (count w));
        ("isStopWord", JBool (isStopWord w))]%string.

Definition json_of_Output (o : option Output) : json :=
  match o with
  | None => JNull
  | Some (ErrorOutput e) => JObj [("error", JStr (js e))]%string
  | Some (Summary s) =>
      JObj [("idiom", JStr (idiom s));
            ("sentiment", JStr (sentiment s));
            ("total_words", JNum (total_words s));
            ("top_5_words", JArr (map json_of_WordStat (top_5_words s)));
            ("non_stopwords", JArr (map json_of_WordStat (non_stopwords s)));
            ("stopwords", JArr (map json_of_WordStat (stopwords s)))]%string
  end.

Definition error_body (msg : string) : json :=
  JObj [("error", JStr (js msg))]%string.

(** [!text] for a string that may be absent. *)
Definition falsy (s : option JsString.t) : bool :=
  match s with
  | None => true
  | Some [] => true
  | Some (_ :: _) => false
  end.

Section Service.

Variable localeCompare : JsString.t -> JsString.t -> Z.

Definition inputIAData (text : JsString.t) (this : TextProcessor)
  : Js TextProcessor :=
  let this := set_input text this in
  try_catch
    (aiResult <- axios_post_and_parse (publicAPI this) text ;;
     ret (set_output (Summary (summarize localeCompare aiResult)) this))
    (fun _ =>
     ret (set_output (ErrorOutput "Error retrieving analysis from AI") this)).

Definition searchTerm (term : JsString.t) (this : TextProcessor)
  : Js TextProcessor :=
  try_catch
    (lastAnalysis <- dbGet_select_last_text ;;
     console_log lastAnalysis ;;;
     ret (set_termFounded
            match lastAnalysis with
            | Some stored => JsString.includes stored term
            | None => false
            end this))
    (fun err =>
     console_error "Error searching term:" (message err) ;;;
     ret (set_termFounded false this)).

Definition saveLastAnalysis (text : JsString.t) (this : TextProcessor)
  : Js unit :=
  try_catch
    (dbRun_delete_all ;;;
     dbRun_insert text)
    (fun err =>
     console_error "Error saving last analysis:" (message err)).

Definition outputData (this : TextProcessor) : option Output := output this.

(** ** routes.js: the two handlers *)

(** router.post('/analyze-text'), applied to [req.body.text]. *)
Definition post_analyze_text (text : option JsString.t) : Js Response :=
  match text with
  | None => ret (mkResponse 400 (error_body "Text is required."))
  | Some t =>
      if falsy text || JsString.eqb (JsString.trim t) [] then
        ret (mkResponse 400 (error_body "Text is required."))
      else
        try_catch
          (apiKey <- getenv_PUBLIC_API_KEY ;;
           processor <- inputIAData t (new_TextProcessor apiKey) ;;
           saveLastAnalysis t processor ;;;
           ret (mkResponse 200 (json_of_Output (outputData processor))))
          (fun _ => ret (mkResponse 500 (error_body "Error analyzing text.")))
  end.

(** router.get('/search-term'), applied to [req.query.term]. *)
Definition get_search_term (term : option JsString.t) : Js Response :=
  match term with
  | None => ret (mkResponse 400 (error_body "Term is required"))
  | Some t =>
      if falsy term then
        ret (mkResponse 400 (error_body "Term is required"))
      else
        apiKey <- getenv_PUBLIC_API_KEY ;;
        processor <- searchTerm t (new_TextProcessor apiKey) ;;
        ret (mkResponse 200
               (JObj [("term", JStr t);
                      ("termFoundedInLastAnalysis",
                       JBool (termFoundedInLastAnalysis processor))]%string))
  end.

End Service.

(** A world with an empty, never written table. *)
Definition fresh_world (m : JsString.t -> JsString.t -> option AiResult) : World :=
  {| last_analysis := []; sqlite_sequence := 0; now := 0; faults := [];
     console := []; PUBLIC_API_KEY := js "sk-test"; model := m |}.

(** The ranking order: [a] may stand before [b] when its count is greater,
    or the counts are equal and its word does not collate after. *)
Definition ranked_before (localeCompare : JsString.t -> JsString.t -> Z)
  (a b : WordStat) : Prop :=
  count b < count a \/
  (count a = count b /\ localeCompare (word a) (word b) <= 0).

(** Entries with the same (count, word) pair. *)
Definition same_pair (k x : WordStat) : bool :=
  (count k =? count x) && JsString.eqb (word k) (word x).

(** The sum of a list of integers, the reference for [total_words]. *)
Definition sum_list (l : list Z) : Z := fold_right Z.add 0 l.

(** The input of the ranking example: the, 5, stopword; cat, 3; dog, 3. *)
Definition example_words : list WordStat :=
  [ mkWordStat (js "the") 5 true;
    mkWordStat (js "cat") 3 false;
    mkWordStat (js "dog") 3 false ].

Definition example_ai : AiResult :=
  {| ai_idiom := js "English"; ai_sentiment := js "neutral";
     words := example_words |}.

(** Seven non-stopwords with distinct counts. *)
Definition example_seven : list WordStat :=
  [ mkWordStat (js "one") 1 false;   mkWordStat (js "seven") 7 false;
    mkWordStat (js "three") 3 false; mkWordStat (js "five") 5 false;
    mkWordStat (js "two") 2 false;   mkWordStat (js "six") 6 false;
    mkWordStat (js "four") 4 false ].

(** A text with an unpaired high surrogate between x and y. *)
Definition unpaired_text : JsString.t := [120; 55357; 121]%N.

(** Counts at the edge of the integers a double holds exactly. *)
Definition large_counts : list WordStat :=
  [ mkWordStat (js "a") (2 ^ 53) false;
    mkWordStat (js "b") 1 false;
    mkWordStat (js "c") 1 false ].

(** Non-negative counts whose exact sum a double holds. *)
Definition safe_counts (ws : list WordStat) : Prop :=
  Forall (fun w => 0 <= count w) ws /\ sum_list (map count ws) <= 2 ^ 53.

(** The next storage call is answered, not rejected. *)
Definition storage_ok (w : World) : bool :=
  match faults w with
  | Some _ :: _ => false
  | _ => true
  end.

(** The text a successful read returns. *)
Definition stored_text (w : World) : option JsString.t :=
  option_map text (order_by_id_desc_limit_1 (last_analysis w)).

(** [term] occurs in [s] as a contiguous run of code units. *)
Definition substring_of (term s : JsString.t) : Prop :=
  exists pre post, s = pre ++ term ++ post.

(** The text passes the check of the analysis route. *)
Definition accepted_text (t : JsString.t) : bool :=
  negb (falsy (Some t) || JsString.eqb (JsString.trim t) []).

(** The body the interface description gives for a search. *)
Definition found_body (term : JsString.t) (found : bool) : json :=
  JObj [("term", JStr term); ("found", JBool found)]%string.

(** A model that never answers. *)
Definition failing_model : JsString.t -> JsString.t -> option AiResult :=
  fun _ _ => None.

(** Only WhiteSpace and LineTerminator code units. *)
Definition blank (s : JsString.t) : bool := forallb JsString.isWhiteSpace s.

(** What the table satisfies between requests: at most one row, and no id
    above the AUTOINCREMENT sequence. *)
Definition store_invariant (w : World) : Prop :=
  (List.length (last_analysis w) <= 1)%nat /\
  Forall (fun r => id r <= sqlite_sequence w) (last_analysis w).

(** ** simple-frontend: components/TextAnalyzer.js *)

(** The state of the component ([text], [result], [loading]), the alerts it
    has raised and the errors it has written to the browser console. *)
Record TextAnalyzer := mkTextAnalyzer {
  ui_text : JsString.t;
  ui_result : option json;
  ui_loading : bool;
  ui_alerts : list string;
  ui_errors : list JsError
}.

(** The component as first rendered, with the text typed in. *)
Definition new_TextAnalyzer (typed : JsString.t) : TextAnalyzer :=
  {| ui_text := typed; ui_result := None; ui_loading := false;
     ui_alerts := []; ui_errors := [] |}.

Definition setResult (data : json) (ui : TextAnalyzer) : TextAnalyzer :=
  {| ui_text := ui_text ui; ui_result := Some data; ui_loading := ui_loading ui;
     ui_alerts := ui_alerts ui; ui_errors := ui_errors ui |}.

Definition setLoading (b : bool) (ui : TextAnalyzer) : TextAnalyzer :=
  {| ui_text := ui_text ui; ui_result := ui_result ui; ui_loading := b;
     ui_alerts := ui_alerts ui; ui_errors := ui_errors ui |}.

Definition alert (msg : string) (ui : TextAnalyzer) : TextAnalyzer :=
  {| ui_text := ui_text ui; ui_result := ui_result ui; ui_loading := ui_loading ui;
     ui_alerts := ui_alerts ui ++ [msg]; ui_errors := ui_errors ui |}.

Definition browser_console_error (err : JsError) (ui : TextAnalyzer) : TextAnalyzer :=
  {| ui_text := ui_text ui; ui_result := ui_result ui; ui_loading := ui_loading ui;
     ui_alerts := ui_alerts ui; ui_errors := ui_errors ui ++ [err] |}.

Section Frontend.

Variable localeCompare : JsString.t -> JsString.t -> Z.

(** axios.post(".../api/analyze-text", { text }) answered by the route of
    this backend: resolved with [response.data] on a 2xx status, rejected on
    any other status. *)
Definition axios_post_analyze_text (text : JsString.t) : Js json :=
  response <- post_analyze_text localeCompare (Some text) ;;
  if (200 <=? status response) && (status response <? 300)
  then ret (body response)
  else throw (mkError "Request failed").

Definition handleAnalyze (ui : TextAnalyzer) : Js TextAnalyzer :=
  if falsy (Some (JsString.trim (ui_text ui))) then
    ret (alert "Please enter some text." ui)
  else
    let ui := setLoading true ui in
    ui <- try_catch
            (data <- axios_post_analyze_text (ui_text ui) ;;
             ret (setResult data ui))
            (fun error =>
             ret (alert "Error analyzing text." (browser_console_error error ui))) ;;
    ret (setLoading false ui).

End Frontend.

(** * Facts on sorting *)

Section SortFacts.

Context {A : Type}.
Variable cmp : A -> A -> Z.

Lemma insert_perm (x : A) (l : list A) : Permutation (insert cmp x l) (x :: l).
Proof.
  induction l as [|y l IH]; simpl.
  - apply Permutation_refl.
  - destruct (cmp x y <? 0).
    + apply Permutation_refl.
    + eapply perm_trans; [apply perm_skip, IH | apply perm_swap].
Qed.

Lemma sort_from_perm (l acc : list A) :
  Permutation (sort_from cmp acc l) (acc ++ l).
Proof.
  revert acc. induction l as [|x l IH]; intros acc; simpl.
  - rewrite app_nil_r. apply Permutation_refl.
  - eapply perm_trans; [apply IH|].
    eapply perm_trans; [apply Permutation_app_tail, insert_perm|].
    simpl. apply Permutation_middle.
Qed.

Lemma sort_perm (l : list A) : Permutation (sort cmp l) l.
Proof. apply (sort_from_perm l []). Qed.

Lemma sort_length (l : list A) : List.length (sort cmp l) = List.length l.
Proof. apply Permutation_length, sort_perm. Qed.

Hypothesis cmp_consistent : consistent cmp.

Lemma cmp_refl (a : A) : cmp a a = 0.
Proof.
  destruct cmp_consistent as [Hanti _].
  specialize (Hanti a a). lia.
Qed.

Lemma cmp_flip_ge (a b : A) : 0 <= cmp a b -> cmp b a <= 0.
Proof.
  destruct cmp_consistent as [Hanti _].
  specialize (Hanti a b). lia.
Qed.

Lemma cmp_flip_zero (a b : A) : cmp a b = 0 -> cmp b a = 0.
Proof.
  destruct cmp_consistent as [Hanti _].
  specialize (Hanti a b). lia.
Qed.

Lemma cmp_le_trans (a b c : A) : cmp a b <= 0 -> cmp b c <= 0 -> cmp a c <= 0.
Proof. destruct cmp_consistent as [_ Htr]. apply Htr. Qed.

Lemma cmp_lt_le_trans (a b c : A) : cmp a b < 0 -> cmp b c <= 0 -> cmp a c < 0.
Proof.
  intros Hab Hbc.
  assert (Hac : cmp a c <= 0) by (apply (cmp_le_trans a b c); lia).
  destruct (Z.eq_dec (cmp a c) 0) as [E|]; [|lia].
  apply cmp_flip_zero in E.
  assert (Hba : cmp b a <= 0) by (apply (cmp_le_trans b c a); lia).
  destruct cmp_consistent as [Hanti _].
  specialize (Hanti a b). lia.
Qed.

Lemma ties_join (k x y : A) : cmp k x = 0 -> cmp k y = 0 -> cmp x y = 0.
Proof.
  intros Hx Hy.
  assert (Hxk : cmp x k = 0) by now apply cmp_flip_zero.
  assert (Hyk : cmp y k = 0) by now apply cmp_flip_zero.
  assert (H1 : cmp x y <= 0) by (apply (cmp_le_trans x k y); lia).
  assert (H2 : cmp y x <= 0) by (apply (cmp_le_trans y k x); lia).
  destruct cmp_consistent as [Hanti _].
  specialize (Hanti x y). lia.
Qed.

Lemma insert_sorted (x : A) (l : list A) :
  StronglySorted (cmp_le cmp) l -> StronglySorted (cmp_le cmp) (insert cmp x l).
Proof.
  induction 1 as [|y l Hs IH Hy]; simpl.
  - constructor; constructor.
  - destruct (Z.ltb_spec (cmp x y) 0) as [Hlt|Hge].
    + constructor; [constructor; assumption|].
      constructor; [unfold cmp_le; lia|].
      eapply Forall_impl; [|exact Hy].
      intros z Hz. unfold cmp_le in *.
      apply (cmp_le_trans x y z); lia.
    + constructor; [exact IH|].
      eapply Permutation_Forall; [apply Permutation_sym, insert_perm|].
      constructor; [|exact Hy].
      unfold cmp_le. now apply cmp_flip_ge.
Qed.

Lemma sort_from_sorted (l acc : list A) :
  StronglySorted (cmp_le cmp) acc ->
  StronglySorted (cmp_le cmp) (sort_from cmp acc l).
Proof.
  revert acc. induction l as [|x l IH]; intros acc Hacc; simpl.
  - exact Hacc.
  - apply IH, insert_sorted, Hacc.
Qed.

Lemma sort_sorted (l : list A) : StronglySorted (cmp_le cmp) (sort cmp l).
Proof. apply sort_from_sorted. constructor. Qed.

(** Nothing behind the insertion point ties with the inserted element. *)
Lemma no_tie_behind (k x : A) (l : list A) :
  ties cmp k x = true ->
  Forall (fun z => cmp x z < 0) l ->
  filter (ties cmp k) l = [].
Proof.
  unfold ties. intros Hkx Hl.
  induction Hl as [|z l Hz _ IH]; simpl; [reflexivity|].
  destruct (Z.eqb_spec (cmp k z) 0) as [E|_]; [|exact IH].
  apply Z.eqb_eq in Hkx.
  pose proof (ties_join k x z Hkx E). lia.
Qed.

Lemma insert_ties (k x : A) (l : list A) :
  StronglySorted (cmp_le cmp) l ->
  filter (ties cmp k) (insert cmp x l)
  = filter (ties cmp k) l ++ filter (ties cmp k) [x].
Proof.
  induction 1 as [|y l Hs IH Hy]; [reflexivity|].
  cbn [insert].
  destruct (Z.ltb_spec (cmp x y) 0) as [Hlt|Hge].
  - destruct (ties cmp k x) eqn:Hkx.
    + assert (E : filter (ties cmp k) (y :: l) = []).
      { apply (no_tie_behind k x (y :: l) Hkx).
        constructor; [exact Hlt|].
        eapply Forall_impl; [|exact Hy].
        intros z Hz. now apply (cmp_lt_le_trans x y z). }
      cbn [filter] in *. rewrite Hkx, E. reflexivity.
    + cbn [filter]. rewrite Hkx. cbn [filter].
      now rewrite app_nil_r.
  - cbn [filter]. rewrite IH.
    destruct (ties cmp k y); reflexivity.
Qed.

Lemma sort_from_ties (k : A) (l acc : list A) :
  StronglySorted (cmp_le cmp) acc ->
  filter (ties cmp k) (sort_from cmp acc l)
  = filter (ties cmp k) acc ++ filter (ties cmp k) l.
Proof.
  revert acc. induction l as [|x l IH]; intros acc Hacc; simpl.
  - now rewrite app_nil_r.
  - rewrite IH by now apply insert_sorted.
    rewrite insert_ties by exact Hacc.
    rewrite <- app_assoc. f_equal.
    simpl. destruct (ties cmp k x); reflexivity.
Qed.

(** Stability: the elements of a tie class keep their input order. *)
Lemma sort_stable (k : A) (l : list A) :
  filter (ties cmp k) (sort cmp l) = filter (ties cmp k) l.
Proof. apply (sort_from_ties k l []). constructor. Qed.

(** A sorted stable arrangement of a list is unique. *)
Lemma stable_sorted_unique (l1 l2 : list A) :
  StronglySorted (cmp_le cmp) l1 ->
  StronglySorted (cmp_le cmp) l2 ->
  Permutation l1 l2 ->
  (forall k, filter (ties cmp k) l1 = filter (ties cmp k) l2) ->
  l1 = l2.
Proof.
  revert l2. induction l1 as [|a l1 IH]; intros l2 H1 H2 HP HF.
  - apply Permutation_nil in HP. now subst.
  - destruct l2 as [|b l2].
    { apply Permutation_sym, Permutation_nil in HP. discriminate. }
    apply StronglySorted_inv in H1. destruct H1 as [H1 Ha].
    apply StronglySorted_inv in H2. destruct H2 as [H2 Hb].
    assert (Hab : cmp a b <= 0).
    { assert (Hin : In b (a :: l1))
        by (eapply Permutation_in; [apply Permutation_sym, HP | now left]).
      destruct Hin as [->|Hin]; [rewrite cmp_refl; lia|].
      rewrite Forall_forall in Ha. now apply Ha. }
    assert (Hba : cmp b a <= 0).
    { assert (Hin : In a (b :: l2))
        by (eapply Permutation_in; [apply HP | now left]).
      destruct Hin as [->|Hin]; [rewrite cmp_refl; lia|].
      rewrite Forall_forall in Hb. now apply Hb. }
    assert (Hz : cmp a b = 0).
    { destruct cmp_consistent as [Hanti _]. specialize (Hanti a b). lia. }
    assert (Heq : a = b).
    { assert (Ta : ties cmp a a = true)
        by (unfold ties; rewrite cmp_refl; reflexivity).
      assert (Tb : ties cmp a b = true)
        by (unfold ties; rewrite Hz; reflexivity).
      specialize (HF a). cbn [filter] in HF.
      rewrite Ta, Tb in HF. congruence. }
    subst b. f_equal. apply IH; try assumption.
    + eapply Permutation_cons_inv, HP.
    + intros k. specialize (HF k). cbn [filter] in HF.
      destruct (ties cmp k a); congruence.
Qed.

(** Whatever stable sorting procedure the engine runs, it returns [sort]. *)
Lemma sort_unique (l l' : list A) :
  Permutation l' l ->
  StronglySorted (cmp_le cmp) l' ->
  (forall k, filter (ties cmp k) l' = filter (ties cmp k) l) ->
  l' = sort cmp l.
Proof.
  intros HP HS HF. apply stable_sorted_unique.
  - exact HS.
  - apply sort_sorted.
  - eapply perm_trans; [exact HP | apply Permutation_sym, sort_perm].
  - intros k. rewrite sort_stable. apply HF.
Qed.

End SortFacts.

(** Sorting sees the elements through the comparator only. *)
Lemma insert_map {A B : Type} (f : A -> B) (cmp : B -> B -> Z) (x : A) (l : list A) :
  map f (insert (fun a b => cmp (f a) (f b)) x l) = insert cmp (f x) (map f l).
Proof.
  induction l as [|y l IH]; simpl; [reflexivity|].
  destruct (cmp (f x) (f y) <? 0); simpl; [reflexivity|]. now rewrite IH.
Qed.

Lemma sort_from_map {A B : Type} (f : A -> B) (cmp : B -> B -> Z) (l acc : list A) :
  map f (sort_from (fun a b => cmp (f a) (f b)) acc l)
  = sort_from cmp (map f acc) (map f l).
Proof.
  revert acc. induction l as [|x l IH]; intros acc; [reflexivity|].
  change (sort_from (fun a b => cmp (f a) (f b)) acc (x :: l))
    with (sort_from (fun a b => cmp (f a) (f b))
            (insert (fun a b => cmp (f a) (f b)) x acc) l).
  rewrite IH, insert_map. reflexivity.
Qed.

Lemma sort_map {A B : Type} (f : A -> B) (cmp : B -> B -> Z) (l : list A) :
  map f (sort (fun a b => cmp (f a) (f b)) l) = sort cmp (map f l).
Proof. apply (sort_from_map f cmp l []). Qed.

Lemma consistent_through {A B : Type} (f : A -> B) (cmp : B -> B -> Z) :
  consistent cmp -> consistent (fun a b => cmp (f a) (f b)).
Proof.
  intros [Hanti Htr]. split.
  - intros a b. apply Hanti.
  - intros a b c. apply Htr.
Qed.

(** Filtering by a stronger test may go through a weaker one. *)
Lemma filter_through {A : Type} (p q : A -> bool) (l : list A) :
  (forall x, p x = true -> q x = true) ->
  filter p l = filter p (filter q l).
Proof.
  intros Hpq. induction l as [|x l IH]; simpl; [reflexivity|].
  destruct (p x) eqn:Hp.
  - rewrite (Hpq x Hp). simpl. rewrite Hp. now f_equal.
  - destruct (q x); simpl; [rewrite Hp|]; exact IH.
Qed.

(** * The code-unit comparator is consistent *)

Lemma codeUnitCompare_antisym (a b : JsString.t) :
  Z.sgn (JsString.codeUnitCompare a b) = - Z.sgn (JsString.codeUnitCompare b a).
Proof.
  revert b. induction a as [|x a IH]; intros [|y b]; simpl; try reflexivity.
  rewrite (N.compare_antisym x y).
  destruct (x ?= y)%N; simpl; try reflexivity. apply IH.
Qed.

Lemma codeUnitCompare_trans (a b c : JsString.t) :
  JsString.codeUnitCompare a b <= 0 ->
  JsString.codeUnitCompare b c <= 0 ->
  JsString.codeUnitCompare a c <= 0.
Proof.
  revert b c. induction a as [|x a IH]; intros [|y b] [|z c]; simpl;
    try lia.
  destruct (N.compare_spec x y), (N.compare_spec y z), (N.compare_spec x z);
    subst; try lia.
  apply IH.
Qed.

Lemma codeUnitCompare_consistent : consistent JsString.codeUnitCompare.
Proof.
  split; [exact codeUnitCompare_antisym | exact codeUnitCompare_trans].
Qed.

Lemma JsString_eqb_eq (a b : JsString.t) : JsString.eqb a b = true <-> a = b.
Proof.
  unfold JsString.eqb. destruct (list_eq_dec N.eq_dec a b); split;
    congruence.
Qed.

(** * Rounding to a double *)

Lemma sum_list_perm (l l' : list Z) :
  Permutation l l' -> sum_list l = sum_list l'.
Proof. induction 1; simpl; lia. Qed.

Lemma round_to_double_exact (z : Z) :
  Z.abs z <= 2 ^ 53 -> JsNumber.round_to_double z = z.
Proof.
  intros H. unfold JsNumber.round_to_double.
  destruct (Z.ltb_spec (Z.abs z) (2 ^ 53)) as [_|Hge]; [reflexivity|].
  assert (Hz : z = 2 ^ 53 \/ z = - 2 ^ 53) by lia.
  destruct Hz as [-> | ->]; reflexivity.
Qed.

(** Rounding keeps the sign: the comparator orders by the counts whether or
    not the difference of two counts is rounded. *)
Lemma round_to_double_sgn (z : Z) :
  Z.sgn (JsNumber.round_to_double z) = Z.sgn z.
Proof.
  unfold JsNumber.round_to_double.
  destruct (Z.ltb_spec (Z.abs z) (2 ^ 53)) as [_|Hge]; [reflexivity|].
  set (a := Z.abs z) in *.
  set (e := Z.log2 a - 52).
  assert (Ha : 0 < a) by lia.
  assert (Hlog : 53 <= Z.log2 a) by (apply Z.log2_le_pow2; lia).
  assert (He : 0 <= e) by (unfold e; lia).
  assert (Hpow : 0 < 2 ^ e) by (apply Z.pow_pos_nonneg; lia).
  assert (Hle : 2 ^ e <= a).
  { eapply Z.le_trans; [|apply (Z.log2_spec a Ha)].
    apply Z.pow_le_mono_r; unfold e; lia. }
  assert (Hq : 1 <= a / 2 ^ e).
  { apply Z.div_le_lower_bound; lia. }
  set (q := a / 2 ^ e) in *.
  set (up := (2 ^ (e - 1) <? a mod 2 ^ e)
             || ((a mod 2 ^ e =? 2 ^ (e - 1)) && Z.odd q)).
  set (q' := if up then q + 1 else q).
  assert (Hq' : 0 < q') by (unfold q'; destruct up; lia).
  assert (Hp : 0 < q' * 2 ^ e) by (apply Z.mul_pos_pos; assumption).
  rewrite Z.sgn_mul, (Z.sgn_pos (q' * 2 ^ e) Hp), Z.mul_1_r.
  destruct z; reflexivity.
Qed.

(** * The ranking step *)

Section RankingFacts.

Variable localeCompare : JsString.t -> JsString.t -> Z.

Lemma sortByCountAndAlpha_le (a b : WordStat) :
  sortByCountAndAlpha localeCompare a b <= 0 <-> ranked_before localeCompare a b.
Proof.
  unfold sortByCountAndAlpha, ranked_before, JsNumber.sub.
  pose proof (round_to_double_sgn (count b - count a)) as Hs.
  destruct (Z.eqb_spec (count b) (count a)) as [E|N]; simpl; lia.
Qed.

Lemma same_pair_eq (k x : WordStat) :
  same_pair k x = true -> count k = count x /\ word k = word x.
Proof.
  unfold same_pair. intros H. apply andb_true_iff in H. destruct H as [Hc Hw].
  apply Z.eqb_eq in Hc. apply JsString_eqb_eq in Hw. now split.
Qed.

Lemma sum_list_nonneg (ws : list WordStat) :
  Forall (fun w => 0 <= count w) ws -> 0 <= sum_list (map count ws).
Proof. induction 1; simpl; lia. Qed.

(** Within the integers a double holds, the reduce adds exactly. *)
Lemma sum_counts_exact (ws : list WordStat) (acc : Z) :
  0 <= acc ->
  Forall (fun w => 0 <= count w) ws ->
  acc + sum_list (map count ws) <= 2 ^ 53 ->
  fold_left (fun sum w => JsNumber.add sum (count w)) ws acc
  = acc + sum_list (map count ws).
Proof.
  revert acc. induction ws as [|w ws IH]; intros acc Hacc Hall Hsum.
  - simpl. lia.
  - change (sum_list (map count (w :: ws)))
      with (count w + sum_list (map count ws)) in *.
    apply Forall_cons_iff in Hall. destruct Hall as [Hw Hall].
    pose proof (sum_list_nonneg ws Hall) as Hrest.
    cbn [fold_left]. unfold JsNumber.add at 2.
    rewrite round_to_double_exact by lia.
    rewrite IH; try assumption; lia.
Qed.

Lemma total_words_exact (ws : list WordStat) :
  safe_counts ws -> sum_counts ws = sum_list (map count ws).
Proof.
  intros [Hall Hsum]. unfold sum_counts.
  rewrite sum_counts_exact; try assumption; lia.
Qed.

Lemma safe_counts_perm (ws ws' : list WordStat) :
  Permutation ws ws' -> safe_counts ws -> safe_counts ws'.
Proof.
  intros HP [Hall Hsum]. split.
  - eapply Permutation_Forall; eassumption.
  - rewrite <- (sum_list_perm (map count ws) (map count ws')); [exact Hsum|].
    now apply Permutation_map.
Qed.

Lemma sum_list_app (l l' : list Z) :
  sum_list (l ++ l') = sum_list l + sum_list l'.
Proof. induction l as [|x l IH]; simpl; lia. Qed.

Lemma filter_split_perm {A : Type} (p : A -> bool) (l : list A) :
  Permutation (filter (fun x => negb (p x)) l ++ filter p l) l.
Proof.
  induction l as [|x l IH]; simpl; [constructor|].
  destruct (p x); simpl.
  - apply Permutation_sym. eapply perm_trans.
    + apply perm_skip, Permutation_sym, IH.
    + apply Permutation_middle.
  - now apply perm_skip.
Qed.

Lemma partition_perm (ws : list WordStat) :
  Permutation (nonStopWords localeCompare ws ++ stopWords localeCompare ws) ws.
Proof.
  unfold nonStopWords, stopWords.
  eapply perm_trans; [|apply (filter_split_perm isStopWord ws)].
  apply Permutation_app; apply sort_perm.
Qed.

Hypothesis localeCompare_consistent : consistent localeCompare.

Lemma sortByCountAndAlpha_consistent :
  consistent (sortByCountAndAlpha localeCompare).
Proof.
  destruct localeCompare_consistent as [Hanti Htr]. split.
  - intros a b. unfold sortByCountAndAlpha, JsNumber.sub.
    destruct (Z.eqb_spec (count b) (count a)) as [E|N],
             (Z.eqb_spec (count a) (count b)) as [E'|N']; simpl;
      try lia; [apply Hanti|].
    rewrite !round_to_double_sgn. lia.
  - intros a b c Hab Hbc.
    apply sortByCountAndAlpha_le in Hab, Hbc. apply sortByCountAndAlpha_le.
    unfold ranked_before in *.
    destruct Hab as [Hab|[Eab Hab]], Hbc as [Hbc|[Ebc Hbc]]; try lia.
    right. split; [lia|]. now apply (Htr (word a) (word b) (word c)).
Qed.

Lemma sorted_ranked (l : list WordStat) :
  StronglySorted (ranked_before localeCompare)
    (sort (sortByCountAndAlpha localeCompare) l).
Proof.
  pose proof (sort_sorted _ sortByCountAndAlpha_consistent l) as H.
  induction H as [|a l' Hs IH Ha]; constructor; [exact IH|].
  eapply Forall_impl; [|exact Ha].
  intros b Hb. now apply sortByCountAndAlpha_le.
Qed.

Lemma same_pair_ties (k x : WordStat) :
  same_pair k x = true -> ties (sortByCountAndAlpha localeCompare) k x = true.
Proof.
  intros H. apply same_pair_eq in H. destruct H as [Hc Hw].
  unfold ties, sortByCountAndAlpha. rewrite <- Hc, <- Hw, Z.eqb_refl. simpl.
  destruct localeCompare_consistent as [Hanti _].
  specialize (Hanti (word k) (word k)).
  apply Z.eqb_eq. lia.
Qed.

Lemma sort_keeps_pairs (k : WordStat) (l : list WordStat) :
  filter (same_pair k) (sort (sortByCountAndAlpha localeCompare) l)
  = filter (same_pair k) l.
Proof.
  rewrite (filter_through (same_pair k)
             (ties (sortByCountAndAlpha localeCompare) k)
             (sort _ l) (same_pair_ties k)).
  rewrite (sort_stable _ sortByCountAndAlpha_consistent).
  symmetry. apply filter_through, same_pair_ties.
Qed.

(** C1. Each of the two partitions is sorted by count descending, then by
    the locale comparison of the words ascending, and entries with the same
    (count, word) pair stay in the order they had in the input. *)
Theorem ranking_sorted_stable (aiResult : AiResult) :
  let s := summarize localeCompare aiResult in
  StronglySorted (ranked_before localeCompare) (non_stopwords s) /\
  StronglySorted (ranked_before localeCompare) (stopwords s) /\
  (forall k,
      filter (same_pair k) (non_stopwords s)
      = filter (same_pair k)
          (filter (fun w => negb (isStopWord w)) (words aiResult))) /\
  (forall k,
      filter (same_pair k) (stopwords s)
      = filter (same_pair k) (filter isStopWord (words aiResult))).
Proof.
  simpl. unfold nonStopWords, stopWords.
  repeat split; try apply sorted_ranked; intros k; apply sort_keeps_pairs.
Qed.

(** Entries that tie under the comparator, whatever their spelling, keep
    their input order as well. *)
Lemma ranking_stable_on_ties (k : WordStat) (ws : list WordStat) :
  filter (ties (sortByCountAndAlpha localeCompare) k) (nonStopWords localeCompare ws)
  = filter (ties (sortByCountAndAlpha localeCompare) k)
      (filter (fun w => negb (isStopWord w)) ws) /\
  filter (ties (sortByCountAndAlpha localeCompare) k) (stopWords localeCompare ws)
  = filter (ties (sortByCountAndAlpha localeCompare) k) (filter isStopWord ws).
Proof.
  split; apply (sort_stable _ sortByCountAndAlpha_consistent).
Qed.

(** The same with the entries told apart by a tag the comparator does not
    see, such as the position in the input: sorting the tagged entries sorts
    the entries, and tied entries keep the order of their tags. *)
Lemma ranking_stable_tagged {T : Type} (k : WordStat) (l : list (T * WordStat)) :
  let by_entry a b := sortByCountAndAlpha localeCompare (snd a) (snd b) in
  map snd (sort by_entry l) = sort (sortByCountAndAlpha localeCompare) (map snd l) /\
  filter (fun e => ties (sortByCountAndAlpha localeCompare) k (snd e)) (sort by_entry l)
  = filter (fun e => ties (sortByCountAndAlpha localeCompare) k (snd e)) l.
Proof.
  intros by_entry. split.
  - apply (sort_map snd).
  - destruct l as [|e0 l]; [reflexivity|].
    pose proof (consistent_through (@snd T WordStat) _ sortByCountAndAlpha_consistent)
      as Hc.
    exact (sort_stable by_entry Hc (fst e0, k) (e0 :: l)).
Qed.

(** The sorted partitions do not depend on the sorting procedure: every
    ranked, stable arrangement of a partition is the one computed. *)
Lemma ranking_deterministic (ws l : list WordStat) :
  Permutation l (filter (fun w => negb (isStopWord w)) ws) ->
  StronglySorted (ranked_before localeCompare) l ->
  (forall k, filter (ties (sortByCountAndAlpha localeCompare) k) l
             = filter (ties (sortByCountAndAlpha localeCompare) k)
                 (filter (fun w => negb (isStopWord w)) ws)) ->
  l = nonStopWords localeCompare ws.
Proof.
  intros HP HS HF. apply (sort_unique _ sortByCountAndAlpha_consistent);
    try assumption.
  clear HP HF. induction HS as [|a l' Hs IH Ha]; constructor; [exact IH|].
  eapply Forall_impl; [|exact Ha].
  intros b Hb. now apply sortByCountAndAlpha_le.
Qed.

End RankingFacts.

Example ranking_example :
  let s := summarize JsString.codeUnitCompare example_ai in
  non_stopwords s = [ mkWordStat (js "cat") 3 false; mkWordStat (js "dog") 3 false ] /\
  stopwords s = [ mkWordStat (js "the") 5 true ] /\
  total_words s = 11.
Proof. repeat split. Qed.

Lemma ranking_sorted_stable_witness :
  consistent JsString.codeUnitCompare /\
  StronglySorted (ranked_before JsString.codeUnitCompare)
    (non_stopwords (summarize JsString.codeUnitCompare example_ai)).
Proof.
  split.
  - exact codeUnitCompare_consistent.
  - exact (proj1 (ranking_sorted_stable JsString.codeUnitCompare
                    codeUnitCompare_consistent example_ai)).
Defined.

Section RankingShape.

Variable localeCompare : JsString.t -> JsString.t -> Z.

(** C2, as the code has it. When the counts are non-negative and their sum
    is at most 2^53, [total_words] is the sum of the counts of the whole
    input, taken before the input is split: it is also the sum over the two
    partitions together, stopwords included. *)
Theorem total_words_is_sum (aiResult : AiResult)
  (Hsafe : safe_counts (words aiResult)) :
  let s := summarize localeCompare aiResult in
  total_words s = sum_list (map count (words aiResult)) /\
  total_words s
  = sum_list (map count (non_stopwords s)) + sum_list (map count (stopwords s)).
Proof.
  simpl. rewrite (total_words_exact _ Hsafe). split; [reflexivity|].
  rewrite <- sum_list_app, <- map_app.
  apply sum_list_perm, Permutation_map, Permutation_sym, partition_perm.
Qed.

Lemma in_sorted_filter (p : WordStat -> bool) (ws : list WordStat) (w : WordStat) :
  In w (sort (sortByCountAndAlpha localeCompare) (filter p ws))
  <-> In w ws /\ p w = true.
Proof.
  rewrite <- filter_In. split; apply Permutation_in;
    [|apply Permutation_sym]; apply sort_perm.
Qed.

(** C3. The two output lists together are the input as a multiset; an entry is
    in [non_stopwords] exactly when it is an input entry whose flag is false,
    in [stopwords] exactly when it is one whose flag is true, entries are
    carried over whole and no entry is in both lists. *)
Theorem partition_by_flag (aiResult : AiResult) :
  let s := summarize localeCompare aiResult in
  Permutation (non_stopwords s ++ stopwords s) (words aiResult) /\
  (forall w, In w (non_stopwords s)
             <-> In w (words aiResult) /\ isStopWord w = false) /\
  (forall w, In w (stopwords s)
             <-> In w (words aiResult) /\ isStopWord w = true) /\
  (forall w, ~ (In w (non_stopwords s) /\ In w (stopwords s))).
Proof.
  simpl. split; [apply partition_perm|].
  unfold nonStopWords, stopWords. split; [|split].
  - intros w. rewrite in_sorted_filter, negb_true_iff. tauto.
  - intros w. rewrite in_sorted_filter. tauto.
  - intros w [H1 H2]. apply in_sorted_filter in H1, H2.
    destruct H1 as [_ H1], H2 as [_ H2]. rewrite H2 in H1. discriminate.
Qed.

(** The multiset reading of C3: every entry occurs in the two lists as often
    as in the input. *)
Lemma partition_count_occ (eq_dec : forall a b : WordStat, {a = b} + {a <> b})
  (ws : list WordStat) (w : WordStat) :
  (count_occ eq_dec (nonStopWords localeCompare ws) w
   + count_occ eq_dec (stopWords localeCompare ws) w
   = count_occ eq_dec ws w)%nat.
Proof.
  rewrite <- count_occ_app.
  revert w. apply Permutation_count_occ, partition_perm.
Qed.

(** C4. [top_5_words] is the first min(5, n) entries of the sorted
    [non_stopwords], n its length: a prefix of at most 5 entries, and the
    whole list when it has fewer than 5. *)
Theorem top_5_is_prefix (aiResult : AiResult) :
  let s := summarize localeCompare aiResult in
  top_5_words s
  = firstn (Nat.min 5 (List.length (non_stopwords s))) (non_stopwords s) /\
  List.length (top_5_words s) = Nat.min 5 (List.length (non_stopwords s)) /\
  (List.length (top_5_words s) <= 5)%nat /\
  (exists rest, non_stopwords s = top_5_words s ++ rest) /\
  ((List.length (non_stopwords s) < 5)%nat -> top_5_words s = non_stopwords s).
Proof.
  simpl. unfold top5NonStopWords, slice. simpl skipn.
  change (5 - 0)%nat with 5%nat.
  set (l := nonStopWords localeCompare (words aiResult)).
  assert (E : firstn 5 l = firstn (Nat.min 5 (List.length l)) l).
  { destruct (Nat.le_ge_cases 5 (List.length l)) as [H|H].
    - now rewrite Nat.min_l.
    - rewrite Nat.min_r by exact H.
      rewrite firstn_all. now apply firstn_all2. }
  repeat split.
  - exact E.
  - apply length_firstn.
  - rewrite length_firstn. lia.
  - exists (skipn 5 l). symmetry. apply firstn_skipn.
  - intros H. apply firstn_all2. lia.
Qed.

End RankingShape.

Lemma total_words_is_sum_witness :
  safe_counts (words example_ai) /\
  total_words (summarize JsString.codeUnitCompare example_ai)
  = sum_list (map count (words example_ai)).
Proof.
  assert (Hsafe : safe_counts (words example_ai)).
  { split; [repeat constructor; simpl; lia | vm_compute; discriminate]. }
  split; [exact Hsafe|].
  exact (proj1 (total_words_is_sum JsString.codeUnitCompare example_ai Hsafe)).
Defined.

(** Beyond 2^53 the additions round: 2^53 + 1 + 1 is 2^53 for the code. *)
Lemma total_words_rounds_large_counts :
  total_words (summarize JsString.codeUnitCompare (mkAiResult [] [] large_counts))
  <> sum_list (map count large_counts).
Proof. vm_compute. discriminate. Qed.

Example total_words_large_counts :
  total_words (summarize JsString.codeUnitCompare (mkAiResult [] [] large_counts))
  = 9007199254740992
  /\ total_words
       (summarize JsString.codeUnitCompare (mkAiResult [] [] (rev large_counts)))
     = 9007199254740994.
Proof. split; reflexivity. Qed.

Lemma top_5_is_prefix_witness :
  (List.length (non_stopwords (summarize JsString.codeUnitCompare example_ai)) < 5)%nat /\
  top_5_words (summarize JsString.codeUnitCompare example_ai)
  = non_stopwords (summarize JsString.codeUnitCompare example_ai).
Proof.
  split.
  - simpl. lia.
  - apply (top_5_is_prefix JsString.codeUnitCompare example_ai). simpl. lia.
Defined.

(** Two entries: exactly two in the top, nothing added. *)
Example top_5_no_padding :
  top_5_words
    (summarize JsString.codeUnitCompare
       {| ai_idiom := []; ai_sentiment := [];
          words := [ mkWordStat (js "a") 1 false; mkWordStat (js "b") 1 false ] |})
  = [ mkWordStat (js "a") 1 false; mkWordStat (js "b") 1 false ].
Proof. reflexivity. Qed.

(** Seven entries: the five of greatest rank. *)
Example top_5_of_seven :
  map count
    (top_5_words
       (summarize JsString.codeUnitCompare
          {| ai_idiom := []; ai_sentiment := [];
             words := map (fun n => mkWordStat (js "w") n false) [1; 7; 3; 5; 2; 6; 4] |}))
  = [7; 6; 5; 4; 3].
Proof. reflexivity. Qed.

(** * String search *)

Lemma isPrefix_spec (p s : JsString.t) :
  JsString.isPrefix p s = true <-> exists post, s = p ++ post.
Proof.
  revert s. induction p as [|a p IH]; intros s; simpl.
  - split; [intros _; now exists s | reflexivity].
  - destruct s as [|b s].
    + split; [discriminate | intros [post H]; discriminate].
    + rewrite andb_true_iff, N.eqb_eq, IH. split.
      * intros [-> [post ->]]. now exists post.
      * intros [post H]. injection H as -> ->. split; [reflexivity|now exists post].
Qed.

Lemma stringIndexOf_spec (s term : JsString.t) (from : nat) :
  (exists i, JsString.stringIndexOf s term from = Some i) <-> substring_of term s.
Proof.
  unfold substring_of. revert from. induction s as [|c s IH]; intros from.
  - cbn [JsString.stringIndexOf].
    destruct (JsString.isPrefix term []) eqn:E.
    + apply isPrefix_spec in E. destruct E as [post E].
      split; [intros _; now exists [], post | intros _; now exists from].
    + split; [intros [i H]; discriminate|].
      intros [pre [post H]].
      destruct pre; [|discriminate]. simpl in H.
      assert (JsString.isPrefix term [] = true)
        by (apply isPrefix_spec; now exists post).
      congruence.
  - cbn [JsString.stringIndexOf].
    destruct (JsString.isPrefix term (c :: s)) eqn:E.
    + apply isPrefix_spec in E. destruct E as [post E].
      split; [intros _; now exists [], post | intros _; now exists from].
    + rewrite IH. split.
      * intros [pre [post ->]]. now exists (c :: pre), post.
      * intros [pre [post H]]. destruct pre as [|c' pre].
        -- simpl in H.
           assert (JsString.isPrefix term (c :: s) = true)
             by (apply isPrefix_spec; now exists post).
           congruence.
        -- injection H as _ ->. now exists pre, post.
Qed.

Lemma includes_spec (s term : JsString.t) :
  JsString.includes s term = true <-> substring_of term s.
Proof.
  rewrite <- (stringIndexOf_spec s term 0). unfold JsString.includes.
  destruct (JsString.stringIndexOf s term 0) as [i|].
  - split; [intros _; now exists i | reflexivity].
  - split; [discriminate | intros [i H]; discriminate].
Qed.

Example includes_World : JsString.includes (js "Hello World") (js "World") = true.
Proof. reflexivity. Qed.

Example includes_world : JsString.includes (js "Hello World") (js "world") = false.
Proof. reflexivity. Qed.

(** Nothing is trimmed or split: a term with a blank at its end is looked
    for with the blank. *)
Example includes_blank : JsString.includes (js "Hello World") (js "Hello ") = true
  /\ JsString.includes (js "Hello World") (js "World ") = false.
Proof. split; reflexivity. Qed.

(** * The store and the search *)

Lemma searchTerm_read_ok (term : JsString.t) (this : TextProcessor) (w : World) :
  storage_ok w = true ->
  exists w',
    searchTerm term this w
    = (Normal (set_termFounded
                 match stored_text w with
                 | Some stored => JsString.includes stored term
                 | None => false
                 end this), w')
    /\ last_analysis w' = last_analysis w
    /\ console w' = console w ++ [LogValue (stored_text w)].
Proof.
  unfold storage_ok, searchTerm, try_catch, bind, dbGet_select_last_text,
    storage_call, stored_text.
  destruct w as [rows seq nw fs con key m]. simpl.
  destruct fs as [|[msg|] fs]; simpl; intros H; try discriminate;
    eexists; repeat split.
Qed.

Lemma searchTerm_read_fails (term : JsString.t) (this : TextProcessor) (w : World) :
  storage_ok w = false ->
  exists w' msg,
    searchTerm term this w = (Normal (set_termFounded false this), w')
    /\ last_analysis w' = last_analysis w
    /\ console w' = console w ++ [LogError "Error searching term:" msg].
Proof.
  unfold storage_ok, searchTerm, try_catch, bind, dbGet_select_last_text,
    storage_call.
  destruct w as [rows seq nw fs con key m]. simpl.
  destruct fs as [|[msg|] fs]; simpl; intros H; try discriminate.
  eexists. exists msg. repeat split.
Qed.

Lemma searchTerm_completes (term : JsString.t) (this : TextProcessor) (w : World) :
  exists this' w', searchTerm term this w = (Normal this', w').
Proof.
  destruct (storage_ok w) eqn:Hok.
  - destruct (searchTerm_read_ok term this w Hok) as [w' [Hrun _]].
    eexists. exists w'. exact Hrun.
  - destruct (searchTerm_read_fails term this w Hok) as [w' [msg [Hrun _]]].
    eexists. exists w'. exact Hrun.
Qed.

Lemma toWellFormed_id_bounded (n : nat) (s : JsString.t) :
  (List.length s <= n)%nat ->
  JsString.isWellFormed s = true -> JsString.toWellFormed s = s.
Proof.
  revert s. induction n as [|n IH]; intros s Hlen Hwf.
  - destruct s; [reflexivity | simpl in Hlen; lia].
  - destruct s as [|c s]; [reflexivity|].
    cbn [JsString.toWellFormed JsString.isWellFormed] in *.
    destruct (JsString.isHighSurrogate c).
    + destruct s as [|d s]; [discriminate|].
      apply andb_true_iff in Hwf. destruct Hwf as [Hd Hwf].
      rewrite Hd. do 2 f_equal. apply IH; [simpl in *; lia | exact Hwf].
    + apply andb_true_iff in Hwf. destruct Hwf as [Hc Hwf].
      apply negb_true_iff in Hc. rewrite Hc. f_equal.
      apply IH; [simpl in *; lia | exact Hwf].
Qed.

(** A string without unpaired surrogate is stored as it is. *)
Lemma toWellFormed_id (s : JsString.t) :
  JsString.isWellFormed s = true -> JsString.toWellFormed s = s.
Proof. apply (toWellFormed_id_bounded (List.length s)). lia. Qed.

Lemma saveLastAnalysis_ok (t : JsString.t) (this : TextProcessor) (w : World) :
  faults w = [] ->
  saveLastAnalysis t this w
  = (Normal tt,
     set_table [mkRow (Z.max (sqlite_sequence w) 0 + 1)
                  (JsString.toWellFormed t) (now w)]
       (Z.max (sqlite_sequence w) 0 + 1) w).
Proof.
  unfold saveLastAnalysis, try_catch, bind, dbRun_delete_all, dbRun_insert,
    storage_call.
  destruct w as [rows seq nw fs con key m]. simpl. intros ->. reflexivity.
Qed.

Lemma stored_text_single (r : Row) (seq : Z) (w : World) :
  stored_text (set_table [r] seq w) = Some (text r).
Proof. reflexivity. Qed.

(** C5. When the model answers, the processing always yields a summary,
    never the error output, and leaves the world (table, console) as it was;
    on an empty word list the summary has total 0 and three empty lists. *)
Theorem ranking_is_total (localeCompare : JsString.t -> JsString.t -> Z)
  (t : JsString.t) (this : TextProcessor) (w : World) (aiResult : AiResult)
  (Hmodel : model w (publicAPI this) t = Some aiResult) :
  inputIAData localeCompare t this w
  = (Normal (set_output (Summary (summarize localeCompare aiResult))
               (set_input t this)), w) /\
  (forall i s,
      let r := summarize localeCompare (mkAiResult i s []) in
      total_words r = 0 /\ top_5_words r = [] /\ non_stopwords r = []
      /\ stopwords r = []).
Proof.
  split.
  - unfold inputIAData, try_catch, bind, axios_post_and_parse. simpl.
    rewrite Hmodel. reflexivity.
  - intros i s. repeat split.
Qed.

Lemma ranking_is_total_witness :
  let w := fresh_world (fun _ _ => Some example_ai) in
  let this := new_TextProcessor (js "sk-test") in
  model w (publicAPI this) (js "the cat dog") = Some example_ai /\
  fst (inputIAData JsString.codeUnitCompare (js "the cat dog") this w)
  = Normal (set_output (Summary (summarize JsString.codeUnitCompare example_ai))
              (set_input (js "the cat dog") this)).
Proof.
  split.
  - reflexivity.
  - rewrite (proj1 (ranking_is_total JsString.codeUnitCompare (js "the cat dog")
                      (new_TextProcessor (js "sk-test"))
                      (fresh_world (fun _ _ => Some example_ai))
                      example_ai eq_refl)).
    reflexivity.
Defined.

(** C6, as the code has it. With the storage answering, a save leaves
    exactly one row under a fresh id, whatever the table held; its text is
    the new text as the UTF-8 column returns it, which is the new text itself
    when it has no unpaired surrogate. After saving Hello World and then
    Second text, Hello is not found and Second is. *)
Theorem save_replaces_record (t : JsString.t) (this : TextProcessor) (w : World)
  (Hok : faults w = []) :
  (exists w',
      saveLastAnalysis t this w = (Normal tt, w') /\
      last_analysis w'
      = [mkRow (Z.max (sqlite_sequence w) 0 + 1) (JsString.toWellFormed t) (now w)] /\
      sqlite_sequence w < Z.max (sqlite_sequence w) 0 + 1 /\
      stored_text w' = Some (JsString.toWellFormed t) /\
      (JsString.isWellFormed t = true -> stored_text w' = Some t)) /\
  (let w1 := snd (saveLastAnalysis (js "Hello World") this w) in
   let w2 := snd (saveLastAnalysis (js "Second text") this w1) in
   fst (searchTerm (js "Hello") this w2) = Normal (set_termFounded false this) /\
   fst (searchTerm (js "Second") this w2) = Normal (set_termFounded true this)).
Proof.
  split.
  - eexists. split; [apply saveLastAnalysis_ok, Hok|].
    split; [reflexivity|]. split; [lia|]. split; [reflexivity|].
    intros Hwf. unfold stored_text. simpl. now rewrite toWellFormed_id.
  - rewrite (saveLastAnalysis_ok _ this w Hok). cbn [snd].
    rewrite saveLastAnalysis_ok by exact Hok. cbn [snd].
    destruct w as [rows seq nw fs con key m]. simpl in Hok. subst fs.
    split; reflexivity.
Qed.

(** A text with an unpaired surrogate is not read back as it was saved. *)
Lemma save_alters_unpaired_surrogate :
  stored_text
    (snd (saveLastAnalysis unpaired_text (new_TextProcessor (js "sk-test"))
            (fresh_world failing_model)))
  <> Some unpaired_text.
Proof. vm_compute. discriminate. Qed.

Example save_unpaired_surrogate :
  stored_text
    (snd (saveLastAnalysis unpaired_text (new_TextProcessor (js "sk-test"))
            (fresh_world failing_model)))
  = Some [120; 65533; 121]%N.
Proof. reflexivity. Qed.

Lemma save_replaces_record_witness :
  let this := new_TextProcessor (js "sk-test") in
  let w := set_table [mkRow 7 (js "old") 0; mkRow 9 (js "older") 0] 9
             (fresh_world failing_model) in
  faults w = [] /\
  last_analysis (snd (saveLastAnalysis (js "Hello World") this w))
  = [mkRow 10 (js "Hello World") 0].
Proof.
  split.
  - reflexivity.
  - destruct (proj1 (save_replaces_record (js "Hello World")
                       (new_TextProcessor (js "sk-test"))
                       (set_table [mkRow 7 (js "old") 0; mkRow 9 (js "older") 0] 9
                          (fresh_world failing_model)) eq_refl))
      as [w' [Hrun [Hrows _]]].
    rewrite Hrun. exact Hrows.
Defined.

(** C7. When the read succeeds and returns the stored text, the search sets
    its flag exactly when the term is a run of code units of that text, as
    written: World is found in Hello World, world is not. *)
Theorem search_is_exact_substring (term stored : JsString.t)
  (this : TextProcessor) (w : World)
  (Hread : storage_ok w = true) (Hstored : stored_text w = Some stored) :
  (exists this' w',
      searchTerm term this w = (Normal this', w') /\
      (termFoundedInLastAnalysis this' = true <-> substring_of term stored)) /\
  JsString.includes (js "Hello World") (js "World") = true /\
  JsString.includes (js "Hello World") (js "world") = false.
Proof.
  split; [|split; reflexivity].
  destruct (searchTerm_read_ok term this w Hread) as [w' [Hrun _]].
  rewrite Hstored in Hrun.
  eexists. exists w'. split; [exact Hrun|].
  simpl. apply includes_spec.
Qed.

Lemma search_is_exact_substring_witness :
  let this := new_TextProcessor (js "sk-test") in
  let w := set_table [mkRow 1 (js "Hello World") 0] 1 (fresh_world failing_model) in
  storage_ok w = true /\ stored_text w = Some (js "Hello World") /\
  exists this' w',
    searchTerm (js "World") this w = (Normal this', w') /\
    (termFoundedInLastAnalysis this' = true
     <-> substring_of (js "World") (js "Hello World")).
Proof.
  split; [reflexivity|]. split; [reflexivity|].
  exact (proj1 (search_is_exact_substring (js "World") (js "Hello World")
                  (new_TextProcessor (js "sk-test"))
                  (set_table [mkRow 1 (js "Hello World") 0] 1
                     (fresh_world failing_model))
                  eq_refl eq_refl)).
Defined.

(** C8. The search always completes normally; with no row in the table, or
    with the read rejected by the storage, its flag is false, and the object
    it leaves is the same in both cases. *)
Theorem search_never_raises (term : JsString.t) (this : TextProcessor) (w : World) :
  exists this' w',
    searchTerm term this w = (Normal this', w') /\
    (last_analysis w = [] \/ storage_ok w = false ->
     termFoundedInLastAnalysis this' = false /\
     this' = set_termFounded false this).
Proof.
  destruct (storage_ok w) eqn:Hok.
  - destruct (searchTerm_read_ok term this w Hok) as [w' [Hrun _]].
    eexists. exists w'. split; [exact Hrun|].
    intros [Hempty|Hf]; [|discriminate].
    unfold stored_text. rewrite Hempty. split; reflexivity.
  - destruct (searchTerm_read_fails term this w Hok) as [w' [msg [Hrun _]]].
    eexists. exists w'. split; [exact Hrun|]. split; reflexivity.
Qed.

Lemma search_never_raises_witness :
  let this := new_TextProcessor (js "sk-test") in
  let w := set_faults [Some "SQLITE_BUSY"%string]
             (set_table [mkRow 1 (js "Hello World") 0] 1 (fresh_world failing_model)) in
  storage_ok w = false /\
  exists this' w',
    searchTerm (js "Hello") this w = (Normal this', w') /\
    termFoundedInLastAnalysis this' = false.
Proof.
  split; [reflexivity|].
  destruct (search_never_raises (js "Hello") (new_TextProcessor (js "sk-test"))
              (set_faults [Some "SQLITE_BUSY"%string]
                 (set_table [mkRow 1 (js "Hello World") 0] 1
                    (fresh_world failing_model))))
    as [this' [w' [Hrun Hfalse]]].
  exists this', w'. split; [exact Hrun|].
  apply Hfalse. right. reflexivity.
Defined.

(** On a table never written the route answers false for every term. *)
Example search_empty_store :
  fst (get_search_term (Some (js "Hello")) (fresh_world failing_model))
  = Normal (mkResponse 200
              (JObj [("term", JStr (js "Hello"));
                     ("termFoundedInLastAnalysis", JBool false)]%string)).
Proof. reflexivity. Qed.

(** A rejected read and an absent term give the same flag and differ in the
    console only. *)
Example search_error_in_console_only :
  let this := new_TextProcessor (js "sk-test") in
  let w := set_table [mkRow 1 (js "Hello World") 0] 1 (fresh_world failing_model) in
  let absent := searchTerm (js "xyz") this w in
  let failed := searchTerm (js "Hello") this (set_faults [Some "SQLITE_BUSY"%string] w) in
  fst absent = fst failed /\
  console (snd absent) = [LogValue (Some (js "Hello World"))] /\
  console (snd failed) = [LogError "Error searching term:" "SQLITE_BUSY"].
Proof. repeat split. Qed.

(** * The routes *)

(** The search route never answers with a property called found. *)
Lemma search_response_has_no_found :
  ~ exists found w',
      get_search_term (Some (js "programming"))
        (set_table [mkRow 1 (js "I love programming") 0] 1 (fresh_world failing_model))
      = (Normal (mkResponse 200 (found_body (js "programming") found)), w').
Proof.
  intros [found [w' H]]. vm_compute in H.
  destruct found; discriminate H.
Qed.

(** C9, as the code has it. For a request with a non-empty term the response
    has status 200 and the body { term, termFoundedInLastAnalysis }, the
    second being the flag the search set. *)
Theorem search_response_shape (term : JsString.t) (w : World)
  (Hterm : term <> []) :
  exists processor w',
    searchTerm term (new_TextProcessor (PUBLIC_API_KEY w)) w = (Normal processor, w') /\
    get_search_term (Some term) w
    = (Normal (mkResponse 200
                 (JObj [("term", JStr term);
                        ("termFoundedInLastAnalysis",
                         JBool (termFoundedInLastAnalysis processor))]%string)),
       w').
Proof.
  destruct (searchTerm_completes term (new_TextProcessor (PUBLIC_API_KEY w)) w)
    as [processor [w' Hrun]].
  exists processor, w'. split; [exact Hrun|].
  unfold get_search_term. destruct term as [|c term]; [contradiction|].
  cbn [falsy]. unfold bind, getenv_PUBLIC_API_KEY.
  rewrite Hrun. reflexivity.
Qed.

Lemma search_response_shape_witness :
  let w := set_table [mkRow 1 (js "I love programming") 0] 1
             (fresh_world failing_model) in
  js "programming" <> [] /\
  fst (get_search_term (Some (js "programming")) w)
  = Normal (mkResponse 200
              (JObj [("term", JStr (js "programming"));
                     ("termFoundedInLastAnalysis", JBool true)]%string)).
Proof.
  assert (Hne : js "programming" <> []) by discriminate.
  split; [exact Hne|].
  destruct (search_response_shape (js "programming")
              (set_table [mkRow 1 (js "I love programming") 0] 1
                 (fresh_world failing_model)) Hne)
    as [processor [w' [Hrun Hresp]]].
  rewrite Hresp. cbn [fst].
  vm_compute in Hrun. injection Hrun as <- _. reflexivity.
Defined.

(** A request without a term, or with an empty one, is refused. *)
Lemma search_requires_term (w : World) :
  get_search_term None w = (Normal (mkResponse 400 (error_body "Term is required")), w)
  /\ get_search_term (Some []) w
     = (Normal (mkResponse 400 (error_body "Term is required")), w).
Proof. split; reflexivity. Qed.

Lemma inputIAData_model_fails (localeCompare : JsString.t -> JsString.t -> Z)
  (t : JsString.t) (this : TextProcessor) (w : World) :
  model w (publicAPI this) t = None ->
  inputIAData localeCompare t this w
  = (Normal (set_output (ErrorOutput "Error retrieving analysis from AI")
               (set_input t this)), w).
Proof.
  intros H. unfold inputIAData, try_catch, bind, axios_post_and_parse. simpl.
  rewrite H. reflexivity.
Qed.

(** C10, as the code has it. When the model call fails on an accepted text
    and the storage answers, the analysis route returns the error object and
    has all the same replaced the stored text with the submitted one as the
    UTF-8 column returns it, the submitted text itself when it has no unpaired
    surrogate: a later search looks in that text. *)
Theorem failed_analysis_is_stored (localeCompare : JsString.t -> JsString.t -> Z)
  (t : JsString.t) (w : World)
  (Haccepted : accepted_text t = true)
  (Hmodel : model w (PUBLIC_API_KEY w) t = None)
  (Hok : faults w = []) :
  exists w',
    post_analyze_text localeCompare (Some t) w
    = (Normal (mkResponse 200 (error_body "Error retrieving analysis from AI")), w') /\
    map text (last_analysis w') = [JsString.toWellFormed t] /\
    (forall term this,
        fst (searchTerm term this w')
        = Normal (set_termFounded
                    (JsString.includes (JsString.toWellFormed t) term) this)) /\
    (JsString.isWellFormed t = true ->
     map text (last_analysis w') = [t] /\
     forall term this,
       fst (searchTerm term this w')
       = Normal (set_termFounded (JsString.includes t term) this)).
Proof.
  unfold accepted_text in Haccepted. apply negb_true_iff in Haccepted.
  unfold post_analyze_text. rewrite Haccepted.
  unfold try_catch at 1, bind at 1, getenv_PUBLIC_API_KEY.
  unfold bind at 1.
  rewrite (inputIAData_model_fails localeCompare t
             (new_TextProcessor (PUBLIC_API_KEY w)) w Hmodel).
  unfold bind at 1. rewrite (saveLastAnalysis_ok t _ w Hok).
  assert (Hs : forall term this,
             fst (searchTerm term this
                    (set_table [mkRow (Z.max (sqlite_sequence w) 0 + 1)
                                  (JsString.toWellFormed t) (now w)]
                       (Z.max (sqlite_sequence w) 0 + 1) w))
             = Normal (set_termFounded
                         (JsString.includes (JsString.toWellFormed t) term) this)).
  { intros term this.
    destruct w as [rows seq nw fs con key m]. simpl in Hok. subst fs.
    reflexivity. }
  eexists. split; [reflexivity|]. split; [reflexivity|]. split; [exact Hs|].
  intros Hwf. pose proof (toWellFormed_id t Hwf) as E. split.
  - simpl. now rewrite E.
  - intros term this. rewrite Hs, E. reflexivity.
Qed.

(** With an unpaired surrogate the stored text is not the submitted one, and
    a search for the submitted text does not find it. *)
Lemma failed_analysis_alters_unpaired_surrogate :
  let w' := snd (post_analyze_text JsString.codeUnitCompare (Some unpaired_text)
                   (fresh_world failing_model)) in
  map text (last_analysis w') <> [unpaired_text] /\
  fst (searchTerm unpaired_text (new_TextProcessor (js "sk-test")) w')
  = Normal (set_termFounded false (new_TextProcessor (js "sk-test"))).
Proof. split; [vm_compute; discriminate | reflexivity]. Qed.

Lemma failed_analysis_is_stored_witness :
  let w := fresh_world failing_model in
  accepted_text (js "Hello World") = true /\
  model w (PUBLIC_API_KEY w) (js "Hello World") = None /\
  faults w = [] /\
  exists w',
    post_analyze_text JsString.codeUnitCompare (Some (js "Hello World")) w
    = (Normal (mkResponse 200 (error_body "Error retrieving analysis from AI")), w') /\
    fst (searchTerm (js "World") (new_TextProcessor (js "sk-test")) w')
    = Normal (set_termFounded true (new_TextProcessor (js "sk-test"))).
Proof.
  repeat split.
  destruct (failed_analysis_is_stored JsString.codeUnitCompare (js "Hello World")
              (fresh_world failing_model) eq_refl eq_refl eq_refl)
    as [w' [Hresp [_ [Hsearch _]]]].
  exists w'. split; [exact Hresp|].
  rewrite Hsearch. reflexivity.
Defined.

(** When the model answers, the route returns the summary and stores the
    text as well. *)
Example analysis_example :
  let w := fresh_world (fun _ _ => Some example_ai) in
  let r := post_analyze_text JsString.codeUnitCompare (Some (js "the cat dog")) w in
  fst r = Normal (mkResponse 200
                    (json_of_Output
                       (Some (Summary (summarize JsString.codeUnitCompare example_ai)))))
  /\ map text (last_analysis (snd r)) = [js "the cat dog"].
Proof. split; reflexivity. Qed.

(** A blank text is refused before anything is called or stored. *)
Example analysis_requires_text :
  let w := fresh_world failing_model in
  post_analyze_text JsString.codeUnitCompare (Some (js "   ")) w
  = (Normal (mkResponse 400 (error_body "Text is required.")), w).
Proof. reflexivity. Qed.

(** * Validation of the submitted text *)

Lemma trimStart_blank (s : JsString.t) : blank s = true -> JsString.trimStart s = [].
Proof.
  unfold blank. induction s as [|c s IH]; simpl; [reflexivity|].
  intros H. apply andb_true_iff in H. destruct H as [Hc Hs].
  rewrite Hc. now apply IH.
Qed.

Lemma trimStart_nil (s : JsString.t) : JsString.trimStart s = [] -> blank s = true.
Proof.
  unfold blank. induction s as [|c s IH]; simpl; [reflexivity|].
  destruct (JsString.isWhiteSpace c); [exact IH | discriminate].
Qed.

Lemma blank_rev (s : JsString.t) : blank (rev s) = blank s.
Proof.
  unfold blank. induction s as [|c s IH]; simpl; [reflexivity|].
  rewrite forallb_app, IH. simpl. rewrite andb_true_r. apply andb_comm.
Qed.

Lemma blank_trimStart (s : JsString.t) : blank (JsString.trimStart s) = blank s.
Proof.
  unfold blank. induction s as [|c s IH]; simpl; [reflexivity|].
  destruct (JsString.isWhiteSpace c) eqn:Hc; simpl; [exact IH|].
  now rewrite Hc.
Qed.

Lemma trim_nil_iff (s : JsString.t) : JsString.trim s = [] <-> blank s = true.
Proof.
  unfold JsString.trim. split.
  - intros H.
    assert (H' : JsString.trimStart (rev (JsString.trimStart s)) = []).
    { destruct (JsString.trimStart (rev (JsString.trimStart s))); [reflexivity|].
      simpl in H. now destruct (rev t). }
    apply trimStart_nil in H'. now rewrite blank_rev, blank_trimStart in H'.
  - intros H. rewrite (trimStart_blank s H). reflexivity.
Qed.

Lemma blank_false_iff (s : JsString.t) :
  blank s = false <-> exists c, In c s /\ JsString.isWhiteSpace c = false.
Proof.
  unfold blank. induction s as [|c s IH]; simpl.
  - split; [discriminate | intros [c [[] _]]].
  - rewrite andb_false_iff, IH. split.
    + intros [H|[c' [Hin H]]]; [now exists c; auto | exists c'; auto].
    + intros [c' [[->|Hin] H]]; [now left | right; now exists c'].
Qed.

Lemma accepted_text_blank (t : JsString.t) : accepted_text t = negb (blank t).
Proof.
  unfold accepted_text. f_equal.
  destruct (blank t) eqn:Hb.
  - apply trim_nil_iff in Hb. rewrite Hb. apply orb_true_r.
  - apply orb_false_iff. split.
    + destruct t; [discriminate Hb | reflexivity].
    + destruct (JsString.eqb (JsString.trim t) []) eqn:E; [|reflexivity].
      apply JsString_eqb_eq, trim_nil_iff in E. congruence.
Qed.

(** X1. A text passes the check of the analysis route exactly when one of
    its code units is not white space. *)
Theorem accepted_text_iff (t : JsString.t) :
  accepted_text t = true
  <-> exists c, In c t /\ JsString.isWhiteSpace c = false.
Proof.
  rewrite accepted_text_blank, negb_true_iff. apply blank_false_iff.
Qed.

Lemma analyze_refuses_blank_aux (localeCompare : JsString.t -> JsString.t -> Z)
  (t : JsString.t) (w : World) :
  blank t = true ->
  post_analyze_text localeCompare (Some t) w
  = (Normal (mkResponse 400 (error_body "Text is required.")), w).
Proof.
  intros Hblank. unfold post_analyze_text.
  pose proof (accepted_text_blank t) as H. rewrite Hblank in H.
  unfold accepted_text in H. apply negb_false_iff in H. rewrite H. reflexivity.
Qed.

(** X2. Without a text, or with a text of white space only, the analysis
    route answers 400 and leaves the world exactly as it was: the table, the
    sequence, the console and the outcomes the storage still holds, so that
    no storage call was made. *)
Theorem analyze_refuses_blank (localeCompare : JsString.t -> JsString.t -> Z)
  (text : option JsString.t) (w : World)
  (Hblank : match text with None => True | Some t => blank t = true end) :
  post_analyze_text localeCompare text w
  = (Normal (mkResponse 400 (error_body "Text is required.")), w).
Proof.
  destruct text as [t|]; [|reflexivity].
  now apply analyze_refuses_blank_aux.
Qed.

Lemma analyze_refuses_blank_witness :
  let t := [9; 32; 160; 8232; 10]%N in
  blank t = true /\
  post_analyze_text JsString.codeUnitCompare (Some t) (fresh_world failing_model)
  = (Normal (mkResponse 400 (error_body "Text is required.")),
     fresh_world failing_model).
Proof.
  split; [reflexivity|].
  apply (analyze_refuses_blank JsString.codeUnitCompare (Some [9; 32; 160; 8232; 10]%N)).
  reflexivity.
Defined.

(** * The methods under every outcome of the collaborators *)

Lemma inputIAData_run (localeCompare : JsString.t -> JsString.t -> Z)
  (t : JsString.t) (this : TextProcessor) (w : World) :
  exists this',
    inputIAData localeCompare t this w = (Normal this', w) /\
    input this' = Some t /\
    output this'
    = Some match model w (publicAPI this) t with
           | Some aiResult => Summary (summarize localeCompare aiResult)
           | None => ErrorOutput "Error retrieving analysis from AI"
           end /\
    publicAPI this' = publicAPI this /\
    termFoundedInLastAnalysis this' = termFoundedInLastAnalysis this.
Proof.
  unfold inputIAData, try_catch, bind, axios_post_and_parse. simpl.
  destruct (model w (publicAPI this) t); eexists; repeat split.
Qed.

(** X3. [inputIAData] completes normally whatever the model does and leaves
    the world as it was; it records the text, sets the output to the summary
    or to the error object, and keeps the key and the search flag. *)
Theorem inputIAData_total (localeCompare : JsString.t -> JsString.t -> Z)
  (t : JsString.t) (this : TextProcessor) (w : World) :
  exists this',
    inputIAData localeCompare t this w = (Normal this', w) /\
    input this' = Some t /\
    output this'
    = Some match model w (publicAPI this) t with
           | Some aiResult => Summary (summarize localeCompare aiResult)
           | None => ErrorOutput "Error retrieving analysis from AI"
           end /\
    publicAPI this' = publicAPI this /\
    termFoundedInLastAnalysis this' = termFoundedInLastAnalysis this.
Proof. apply inputIAData_run. Qed.

Lemma saveLastAnalysis_cases (t : JsString.t) (this : TextProcessor) (w : World) :
  exists w',
    saveLastAnalysis t this w = (Normal tt, w') /\
    match faults w with
    | Some msg :: _ =>
        last_analysis w' = last_analysis w /\
        sqlite_sequence w' = sqlite_sequence w /\
        console w' = console w ++ [LogError "Error saving last analysis:" msg]
    | None :: Some msg :: _ =>
        last_analysis w' = [] /\
        sqlite_sequence w' = sqlite_sequence w /\
        console w' = console w ++ [LogError "Error saving last analysis:" msg]
    | _ =>
        last_analysis w'
        = [mkRow (Z.max (sqlite_sequence w) 0 + 1)
             (JsString.toWellFormed t) (now w)] /\
        sqlite_sequence w' = Z.max (sqlite_sequence w) 0 + 1 /\
        console w' = console w
    end.
Proof.
  unfold saveLastAnalysis, try_catch, bind, dbRun_delete_all, dbRun_insert,
    storage_call, console_error.
  destruct w as [rows seq nw fs con key m]. simpl.
  destruct fs as [|[msg|] [|[msg'|] fs]]; simpl; eexists; repeat split.
Qed.

(** X4. [saveLastAnalysis] completes normally under every outcome of the
    storage. A rejected DELETE leaves table and sequence as they were; a
    rejected INSERT leaves the table empty; both are written to the console.
    Otherwise the table is the new row alone, holding the text as the UTF-8
    column returns it, and the console is unchanged. *)
Theorem saveLastAnalysis_outcomes (t : JsString.t) (this : TextProcessor) (w : World) :
  exists w',
    saveLastAnalysis t this w = (Normal tt, w') /\
    match faults w with
    | Some msg :: _ =>
        last_analysis w' = last_analysis w /\
        sqlite_sequence w' = sqlite_sequence w /\
        console w' = console w ++ [LogError "Error saving last analysis:" msg]
    | None :: Some msg :: _ =>
        last_analysis w' = [] /\
        sqlite_sequence w' = sqlite_sequence w /\
        console w' = console w ++ [LogError "Error saving last analysis:" msg]
    | _ =>
        last_analysis w'
        = [mkRow (Z.max (sqlite_sequence w) 0 + 1)
             (JsString.toWellFormed t) (now w)] /\
        sqlite_sequence w' = Z.max (sqlite_sequence w) 0 + 1 /\
        console w' = console w
    end.
Proof. apply saveLastAnalysis_cases. Qed.

Lemma saveLastAnalysis_keeps_env (t : JsString.t) (this : TextProcessor) (w : World) :
  exists w',
    saveLastAnalysis t this w = (Normal tt, w') /\
    model w' = model w /\ PUBLIC_API_KEY w' = PUBLIC_API_KEY w /\ now w' = now w.
Proof.
  unfold saveLastAnalysis, try_catch, bind, dbRun_delete_all, dbRun_insert,
    storage_call, console_error.
  destruct w as [rows seq nw fs con key m]. simpl.
  destruct fs as [|[msg|] [|[msg'|] fs]]; simpl; eexists; repeat split.
Qed.

Lemma post_analyze_text_run (localeCompare : JsString.t -> JsString.t -> Z)
  (t : JsString.t) (w : World) :
  accepted_text t = true ->
  post_analyze_text localeCompare (Some t) w
  = (Normal (mkResponse 200
               (json_of_Output
                  (Some match model w (PUBLIC_API_KEY w) t with
                        | Some aiResult => Summary (summarize localeCompare aiResult)
                        | None => ErrorOutput "Error retrieving analysis from AI"
                        end))),
     snd (saveLastAnalysis t (new_TextProcessor (PUBLIC_API_KEY w)) w)).
Proof.
  intros Hacc. unfold accepted_text in Hacc. apply negb_true_iff in Hacc.
  unfold post_analyze_text. rewrite Hacc.
  destruct (inputIAData_run localeCompare t (new_TextProcessor (PUBLIC_API_KEY w)) w)
    as [p [Hrun [_ [Hout _]]]].
  unfold try_catch at 1, bind at 1, getenv_PUBLIC_API_KEY. unfold bind at 1.
  rewrite Hrun. unfold bind at 1.
  destruct (saveLastAnalysis_cases t p w) as [w' [Hsave _]].
  destruct (saveLastAnalysis_cases t (new_TextProcessor (PUBLIC_API_KEY w)) w)
    as [w'' [Hsave' _]].
  assert (Hsame : w'' = w').
  { unfold saveLastAnalysis in *. rewrite Hsave in Hsave'. congruence. }
  rewrite Hsave, Hsave'. cbn [snd]. subst w''.
  unfold ret, outputData. rewrite Hout. reflexivity.
Qed.

(** X5. On an accepted text the analysis route always answers 200, never
    500: the body is the summary when the model answered and the error object
    when it did not, whatever the storage does in between. *)
Theorem analyze_always_answers (localeCompare : JsString.t -> JsString.t -> Z)
  (t : JsString.t) (w : World) (Haccepted : accepted_text t = true) :
  exists w',
    post_analyze_text localeCompare (Some t) w
    = (Normal (mkResponse 200
                 (json_of_Output
                    (Some match model w (PUBLIC_API_KEY w) t with
                          | Some aiResult => Summary (summarize localeCompare aiResult)
                          | None => ErrorOutput "Error retrieving analysis from AI"
                          end))), w') /\
    model w' = model w /\ PUBLIC_API_KEY w' = PUBLIC_API_KEY w.
Proof.
  rewrite (post_analyze_text_run localeCompare t w Haccepted).
  destruct (saveLastAnalysis_keeps_env t (new_TextProcessor (PUBLIC_API_KEY w)) w)
    as [w' [Hsave [Hm [Hk _]]]].
  exists w'. rewrite Hsave. cbn [snd]. repeat split; assumption.
Qed.

Lemma analyze_always_answers_witness :
  let w := set_faults [Some "SQLITE_IOERR"%string] (fresh_world (fun _ _ => Some example_ai)) in
  accepted_text (js "the cat dog") = true /\
  fst (post_analyze_text JsString.codeUnitCompare (Some (js "the cat dog")) w)
  = Normal (mkResponse 200
              (json_of_Output
                 (Some (Summary (summarize JsString.codeUnitCompare example_ai))))).
Proof.
  split; [reflexivity|].
  destruct (analyze_always_answers JsString.codeUnitCompare (js "the cat dog")
              (set_faults [Some "SQLITE_IOERR"%string]
                 (fresh_world (fun _ _ => Some example_ai))) eq_refl)
    as [w' [Hrun _]].
  rewrite Hrun. reflexivity.
Defined.

(** * The store across requests *)

Lemma searchTerm_frame (term : JsString.t) (this : TextProcessor) (w : World) :
  exists b w',
    searchTerm term this w = (Normal (set_termFounded b this), w') /\
    last_analysis w' = last_analysis w /\
    sqlite_sequence w' = sqlite_sequence w /\
    (last_analysis w = [] -> b = false).
Proof.
  unfold searchTerm, try_catch, bind, dbGet_select_last_text, storage_call,
    console_log, console_error.
  destruct w as [rows seq nw fs con key m]. simpl.
  destruct fs as [|[msg|] fs]; simpl; eexists; eexists; repeat split;
    intros ->; reflexivity.
Qed.

(** X6. The search only reads: it completes normally, leaves table and
    sequence as they were, and changes nothing of the processor but the
    flag. *)
Theorem searchTerm_read_only (term : JsString.t) (this : TextProcessor) (w : World) :
  exists this' w',
    searchTerm term this w = (Normal this', w') /\
    last_analysis w' = last_analysis w /\
    sqlite_sequence w' = sqlite_sequence w /\
    publicAPI this' = publicAPI this /\
    input this' = input this /\
    output this' = output this.
Proof.
  destruct (searchTerm_frame term this w) as [b [w' [Hrun [Hrows [Hseq _]]]]].
  exists (set_termFounded b this), w'. repeat split; assumption.
Qed.

Lemma search_route_frame (term : option JsString.t) (w : World) :
  exists resp w',
    get_search_term term w = (Normal resp, w') /\
    last_analysis w' = last_analysis w /\
    sqlite_sequence w' = sqlite_sequence w.
Proof.
  destruct term as [[|c t]|].
  - eexists. exists w. repeat split.
  - destruct (searchTerm_frame (c :: t) (new_TextProcessor (PUBLIC_API_KEY w)) w)
      as [b [w' [Hrun [Hrows [Hseq _]]]]].
    eexists. exists w'. unfold get_search_term. cbn [falsy].
    unfold bind, getenv_PUBLIC_API_KEY. rewrite Hrun.
    repeat split; assumption.
  - eexists. exists w. repeat split.
Qed.

(** X7. The search route answers 400 exactly when the term is absent or
    empty, and then touches nothing; otherwise it answers 200. It never
    writes to the table. *)
Theorem search_route_answers (term : option JsString.t) (w : World) :
  exists resp w',
    get_search_term term w = (Normal resp, w') /\
    last_analysis w' = last_analysis w /\
    sqlite_sequence w' = sqlite_sequence w /\
    if falsy term
    then resp = mkResponse 400 (error_body "Term is required") /\ w' = w
    else status resp = 200.
Proof.
  destruct term as [[|c t]|].
  - eexists. exists w. repeat split.
  - destruct (searchTerm_frame (c :: t) (new_TextProcessor (PUBLIC_API_KEY w)) w)
      as [b [w' [Hrun [Hrows [Hseq _]]]]].
    eexists. exists w'. unfold get_search_term. cbn [falsy].
    unfold bind, getenv_PUBLIC_API_KEY. rewrite Hrun.
    repeat split; assumption.
  - eexists. exists w. repeat split.
Qed.

Lemma order_by_id_desc_limit_1_spec (rows : list Row) :
  match order_by_id_desc_limit_1 rows with
  | None => rows = []
  | Some r => In r rows /\ Forall (fun r' => id r' <= id r) rows
  end.
Proof.
  induction rows as [|r rows IH]; simpl; [reflexivity|].
  destruct (order_by_id_desc_limit_1 rows) as [r'|].
  - destruct IH as [Hin Hall].
    destruct (Z.ltb_spec (id r') (id r)) as [Hlt|Hge].
    + split; [now left|]. constructor; [lia|].
      eapply Forall_impl; [|exact Hall]. simpl. intros; lia.
    + split; [now right|]. constructor; [lia | exact Hall].
  - subst rows. split; [now left|]. constructor; [lia | constructor].
Qed.

(** X8. When the table holds several rows, the search looks in the row of
    greatest id alone: a term that occurs only in the other rows is not
    found. *)
Theorem search_reads_latest_row (term : JsString.t) (this : TextProcessor)
  (w : World) (r : Row)
  (Hread : storage_ok w = true)
  (Hin : In r (last_analysis w))
  (Hmax : forall r', In r' (last_analysis w) -> id r' <= id r)
  (Hkey : forall r', In r' (last_analysis w) -> id r' = id r -> r' = r) :
  exists w',
    searchTerm term this w
    = (Normal (set_termFounded (JsString.includes (text r) term) this), w').
Proof.
  destruct (searchTerm_read_ok term this w Hread) as [w' [Hrun _]].
  exists w'. rewrite Hrun. unfold stored_text.
  pose proof (order_by_id_desc_limit_1_spec (last_analysis w)) as Hsel.
  destruct (order_by_id_desc_limit_1 (last_analysis w)) as [r0|].
  - destruct Hsel as [Hin0 Hall].
    rewrite Forall_forall in Hall.
    assert (r0 = r).
    { apply Hkey; [exact Hin0|].
      pose proof (Hall r Hin). pose proof (Hmax r0 Hin0). lia. }
    subst r0. reflexivity.
  - rewrite Hsel in Hin. destruct Hin.
Qed.

Lemma search_reads_latest_row_witness :
  let this := new_TextProcessor (js "sk-test") in
  let rows := [mkRow 3 (js "old text") 0; mkRow 8 (js "new words") 0;
               mkRow 5 (js "older text") 0] in
  let w := set_table rows 8 (fresh_world failing_model) in
  storage_ok w = true /\
  In (mkRow 8 (js "new words") 0) rows /\
  fst (searchTerm (js "text") this w) = Normal (set_termFounded false this).
Proof.
  cbv zeta.
  assert (Hin : In (mkRow 8 (js "new words") 0)
                  [mkRow 3 (js "old text") 0; mkRow 8 (js "new words") 0;
                   mkRow 5 (js "older text") 0]) by (simpl; tauto).
  split; [reflexivity|]. split; [exact Hin|].
  destruct (search_reads_latest_row (js "text") (new_TextProcessor (js "sk-test"))
              (set_table [mkRow 3 (js "old text") 0; mkRow 8 (js "new words") 0;
                          mkRow 5 (js "older text") 0] 8 (fresh_world failing_model))
              (mkRow 8 (js "new words") 0) eq_refl Hin)
    as [w' Hrun].
  - simpl. intros r' [<-|[<-|[<-|[]]]]; simpl; lia.
  - simpl. intros r' [<-|[<-|[<-|[]]]]; simpl; intros; try reflexivity; lia.
  - rewrite Hrun. reflexivity.
Defined.

Lemma includes_refl (s : JsString.t) : JsString.includes s s = true.
Proof. apply includes_spec. exists [], []. now rewrite app_nil_r. Qed.

(** X9. After the analysis of an accepted text with the storage answering,
    whether or not the model answered, the table holds the submitted text as
    the UTF-8 column returns it and a search finds exactly the terms that
    text includes. When the submitted text has no unpaired surrogate, that is
    the submitted text, and searching for it finds it. *)
Theorem analyze_then_search (localeCompare : JsString.t -> JsString.t -> Z)
  (t : JsString.t) (w : World)
  (Haccepted : accepted_text t = true) (Hok : faults w = []) :
  exists resp w',
    post_analyze_text localeCompare (Some t) w = (Normal resp, w') /\
    map text (last_analysis w') = [JsString.toWellFormed t] /\
    (forall term this,
        fst (searchTerm term this w')
        = Normal (set_termFounded
                    (JsString.includes (JsString.toWellFormed t) term) this)) /\
    (JsString.isWellFormed t = true ->
     map text (last_analysis w') = [t] /\
     forall this, fst (searchTerm t this w') = Normal (set_termFounded true this)).
Proof.
  rewrite (post_analyze_text_run localeCompare t w Haccepted).
  rewrite (saveLastAnalysis_ok t _ w Hok). cbn [snd].
  eexists. eexists. split; [reflexivity|]. split; [reflexivity|].
  assert (Hs : forall term this,
             fst (searchTerm term this
                    (set_table [mkRow (Z.max (sqlite_sequence w) 0 + 1)
                                  (JsString.toWellFormed t) (now w)]
                       (Z.max (sqlite_sequence w) 0 + 1) w))
             = Normal (set_termFounded
                         (JsString.includes (JsString.toWellFormed t) term) this)).
  { intros term this.
    destruct w as [rows seq nw fs con key m]. simpl in Hok. subst fs.
    reflexivity. }
  split; [exact Hs|].
  intros Hwf. pose proof (toWellFormed_id t Hwf) as E. split.
  - simpl. now rewrite E.
  - intros this. rewrite Hs, E, includes_refl. reflexivity.
Qed.

Lemma analyze_then_search_witness :
  let w := fresh_world (fun _ _ => Some example_ai) in
  accepted_text (js "the cat dog") = true /\ faults w = [] /\
  exists resp w',
    post_analyze_text JsString.codeUnitCompare (Some (js "the cat dog")) w
    = (Normal resp, w') /\
    fst (searchTerm (js "cat") (new_TextProcessor (js "sk-test")) w')
    = Normal (set_termFounded true (new_TextProcessor (js "sk-test"))).
Proof.
  split; [reflexivity|]. split; [reflexivity|].
  destruct (analyze_then_search JsString.codeUnitCompare (js "the cat dog")
              (fresh_world (fun _ _ => Some example_ai)) eq_refl eq_refl)
    as [resp [w' [Hrun [_ [Hsearch _]]]]].
  exists resp, w'. split; [exact Hrun|].
  rewrite Hsearch. reflexivity.
Defined.

(** X10. When the storage rejects the INSERT after the DELETE went through,
    the caller still receives 200 with the analysis, the table is left empty,
    and no term is found afterwards, the submitted text included. *)
Theorem rejected_insert_loses_record (localeCompare : JsString.t -> JsString.t -> Z)
  (t : JsString.t) (w : World) (msg : string) (fs : list (option string))
  (Haccepted : accepted_text t = true)
  (Hfaults : faults w = None :: Some msg :: fs) :
  exists resp w',
    post_analyze_text localeCompare (Some t) w = (Normal resp, w') /\
    status resp = 200 /\
    last_analysis w' = [] /\
    (forall term this, exists w'',
        searchTerm term this w' = (Normal (set_termFounded false this), w'')).
Proof.
  rewrite (post_analyze_text_run localeCompare t w Haccepted).
  destruct (saveLastAnalysis_cases t (new_TextProcessor (PUBLIC_API_KEY w)) w)
    as [w' [Hsave Hcase]].
  rewrite Hfaults in Hcase. destruct Hcase as [Hrows _].
  rewrite Hsave. cbn [snd]. eexists. exists w'.
  split; [reflexivity|]. split; [reflexivity|]. split; [exact Hrows|].
  intros term this.
  destruct (searchTerm_frame term this w') as [b [w'' [Hrun [_ [_ Hb]]]]].
  exists w''. rewrite Hrun, (Hb Hrows). reflexivity.
Qed.

Lemma rejected_insert_loses_record_witness :
  let w := set_faults [None; Some "SQLITE_FULL"%string]
             (set_table [mkRow 1 (js "Hello World") 0] 1 (fresh_world failing_model)) in
  accepted_text (js "Second text") = true /\
  faults w = [None; Some "SQLITE_FULL"%string] /\
  last_analysis
    (snd (post_analyze_text JsString.codeUnitCompare (Some (js "Second text")) w)) = [].
Proof.
  split; [reflexivity|]. split; [reflexivity|].
  destruct (rejected_insert_loses_record JsString.codeUnitCompare (js "Second text")
              (set_faults [None; Some "SQLITE_FULL"%string]
                 (set_table [mkRow 1 (js "Hello World") 0] 1
                    (fresh_world failing_model)))
              "SQLITE_FULL" [] eq_refl eq_refl)
    as [resp [w' [Hrun [_ [Hrows _]]]]].
  rewrite Hrun. exact Hrows.
Defined.

(** X11. When the storage rejects the DELETE, the caller still receives 200
    with the analysis of the new text while the table keeps the old record:
    the next search answers from the text of the previous analysis. *)
Theorem rejected_delete_keeps_old_record (localeCompare : JsString.t -> JsString.t -> Z)
  (t : JsString.t) (w : World) (msg : string) (fs : list (option string))
  (Haccepted : accepted_text t = true)
  (Hfaults : faults w = Some msg :: fs) :
  exists resp w',
    post_analyze_text localeCompare (Some t) w = (Normal resp, w') /\
    status resp = 200 /\
    last_analysis w' = last_analysis w /\
    stored_text w' = stored_text w /\
    faults w' = fs.
Proof.
  rewrite (post_analyze_text_run localeCompare t w Haccepted).
  unfold saveLastAnalysis, try_catch, bind, dbRun_delete_all, dbRun_insert,
    storage_call, console_error.
  destruct w as [rows seq nw fs0 con key m]. simpl in *. subst fs0. simpl.
  eexists. eexists. repeat split.
Qed.

Lemma rejected_delete_keeps_old_record_witness :
  let w := set_faults [Some "SQLITE_BUSY"%string]
             (set_table [mkRow 1 (js "Hello World") 0] 1 (fresh_world failing_model)) in
  accepted_text (js "Second text") = true /\
  faults w = [Some "SQLITE_BUSY"%string] /\
  exists resp w',
    post_analyze_text JsString.codeUnitCompare (Some (js "Second text")) w
    = (Normal resp, w') /\
    fst (searchTerm (js "Hello") (new_TextProcessor (js "sk-test")) w')
    = Normal (set_termFounded true (new_TextProcessor (js "sk-test"))).
Proof.
  split; [reflexivity|]. split; [reflexivity|].
  destruct (rejected_delete_keeps_old_record JsString.codeUnitCompare (js "Second text")
              (set_faults [Some "SQLITE_BUSY"%string]
                 (set_table [mkRow 1 (js "Hello World") 0] 1
                    (fresh_world failing_model)))
              "SQLITE_BUSY" [] eq_refl eq_refl)
    as [resp [w' [Hrun _]]].
  exists resp, w'. split; [exact Hrun|].
  vm_compute in Hrun. injection Hrun as _ <-. reflexivity.
Defined.

(** X12. A request served on its own keeps the store invariant under every
    outcome of the storage and of the model: at most one row, no id above the
    sequence; and the sequence never goes down, so no id is given twice. *)
Theorem requests_keep_store_invariant (localeCompare : JsString.t -> JsString.t -> Z)
  (text term : option JsString.t) (w : World)
  (Hinv : store_invariant w) :
  (exists resp w',
      post_analyze_text localeCompare text w = (Normal resp, w') /\
      store_invariant w' /\ sqlite_sequence w <= sqlite_sequence w') /\
  (exists resp w',
      get_search_term term w = (Normal resp, w') /\
      store_invariant w' /\ sqlite_sequence w <= sqlite_sequence w').
Proof.
  split.
  - destruct text as [t|].
    + destruct (accepted_text t) eqn:Hacc.
      * rewrite (post_analyze_text_run localeCompare t w Hacc).
        destruct (saveLastAnalysis_cases t (new_TextProcessor (PUBLIC_API_KEY w)) w)
          as [w' [Hsave Hcase]].
        rewrite Hsave. cbn [snd]. eexists. exists w'.
        split; [reflexivity|].
        destruct Hinv as [Hlen Hids]. unfold store_invariant.
        destruct (faults w) as [|[msg|] [|[msg'|] fs]];
          destruct Hcase as [Hrows [Hseq _]]; rewrite Hrows, Hseq;
          repeat split; simpl; try assumption; try lia;
          repeat constructor; simpl; lia.
      * rewrite (accepted_text_blank t) in Hacc. apply negb_false_iff in Hacc.
        rewrite (analyze_refuses_blank_aux localeCompare t w Hacc).
        eexists. exists w. repeat split; try apply Hinv. lia.
    + eexists. exists w. repeat split; try apply Hinv. lia.
  - destruct (search_route_frame term w) as [resp [w' [Hrun [Hrows Hseq]]]].
    exists resp, w'. split; [exact Hrun|].
    unfold store_invariant. rewrite Hrows, Hseq. split; [exact Hinv | lia].
Qed.

Lemma requests_keep_store_invariant_witness :
  store_invariant (fresh_world failing_model) /\
  store_invariant
    (snd (post_analyze_text JsString.codeUnitCompare (Some (js "Hello World"))
            (fresh_world failing_model))).
Proof.
  assert (Hinv : store_invariant (fresh_world failing_model))
    by (split; [simpl; lia | constructor]).
  split; [exact Hinv|].
  destruct (proj1 (requests_keep_store_invariant JsString.codeUnitCompare
                     (Some (js "Hello World")) None (fresh_world failing_model) Hinv))
    as [resp [w' [Hrun [Hinv' _]]]].
  rewrite Hrun. exact Hinv'.
Defined.

(** * More on the ranking *)

Lemma sorted_app_cross {A : Type} (R : A -> A -> Prop) (l1 l2 : list A) :
  StronglySorted R (l1 ++ l2) ->
  forall x y, In x l1 -> In y l2 -> R x y.
Proof.
  induction l1 as [|a l1 IH]; simpl; intros Hs x y Hx Hy; [destruct Hx|].
  apply StronglySorted_inv in Hs. destruct Hs as [Hs Ha].
  destruct Hx as [->|Hx].
  - rewrite Forall_forall in Ha. apply Ha, in_or_app. now right.
  - now apply IH.
Qed.

Lemma filter_perm {A : Type} (p : A -> bool) (l l' : list A) :
  Permutation l l' -> Permutation (filter p l) (filter p l').
Proof.
  induction 1 as [|x l l' _ IH|x y l|l l' l'' _ IH1 _ IH2]; simpl.
  - constructor.
  - destruct (p x); [now constructor | exact IH].
  - destruct (p x), (p y); try apply Permutation_refl. apply perm_swap.
  - eapply perm_trans; eassumption.
Qed.

Lemma filter_all {A : Type} (p : A -> bool) (l : list A) :
  (forall x, In x l -> p x = true) -> filter p l = l.
Proof.
  induction l as [|a l IH]; simpl; intros H; [reflexivity|].
  rewrite (H a (or_introl eq_refl)). f_equal. apply IH. auto.
Qed.

Lemma filter_none {A : Type} (p : A -> bool) (l : list A) :
  (forall x, In x l -> p x = false) -> filter p l = [].
Proof.
  induction l as [|a l IH]; simpl; intros H; [reflexivity|].
  rewrite (H a (or_introl eq_refl)). apply IH. auto.
Qed.

(** Two arrangements of copies of one element are the same list. *)
Lemma perm_all_equal {A : Type} (l1 l2 : list A) :
  Permutation l1 l2 ->
  (forall x y, In x l1 -> In y l1 -> x = y) ->
  l1 = l2.
Proof.
  revert l2. induction l1 as [|a l1 IH]; intros l2 HP Heq.
  - apply Permutation_nil in HP. now subst.
  - destruct l2 as [|b l2].
    { apply Permutation_sym, Permutation_nil in HP. discriminate. }
    assert (b = a).
    { apply Heq; [|now left].
      eapply Permutation_in; [apply Permutation_sym, HP | now left]. }
    subst b. f_equal. apply IH.
    + eapply Permutation_cons_inv, HP.
    + intros x y Hx Hy. apply Heq; now right.
Qed.

Section RankingMore.

Variable localeCompare : JsString.t -> JsString.t -> Z.
Hypothesis localeCompare_consistent : consistent localeCompare.

Lemma sort_of_sorted (l : list WordStat) :
  StronglySorted (cmp_le (sortByCountAndAlpha localeCompare)) l ->
  sort (sortByCountAndAlpha localeCompare) l = l.
Proof.
  intros Hs. symmetry.
  apply (sort_unique _ (sortByCountAndAlpha_consistent _ localeCompare_consistent));
    [apply Permutation_refl | exact Hs | reflexivity].
Qed.

(** X13. The entries of [top_5_words] are non-stopwords of the input, and
    none of the non-stopwords left out has a greater count than one of
    them. *)
Theorem top_5_most_frequent (aiResult : AiResult) (x : WordStat)
  (Hx : In x (top_5_words (summarize localeCompare aiResult))) :
  In x (words aiResult) /\ isStopWord x = false /\
  forall y, In y (skipn 5 (non_stopwords (summarize localeCompare aiResult))) ->
            count y <= count x.
Proof.
  simpl in *. unfold top5NonStopWords, slice in Hx. simpl skipn in Hx.
  change (5 - 0)%nat with 5%nat in Hx.
  set (l := nonStopWords localeCompare (words aiResult)) in *.
  assert (Hl : In x l).
  { rewrite <- (firstn_skipn 5 l). apply in_or_app. now left. }
  unfold l, nonStopWords in Hl. apply in_sorted_filter in Hl.
  destruct Hl as [Hin Hflag]. apply negb_true_iff in Hflag.
  split; [exact Hin|]. split; [exact Hflag|].
  intros y Hy.
  assert (Hs : StronglySorted (ranked_before localeCompare)
                 (firstn 5 l ++ skipn 5 l)).
  { rewrite firstn_skipn. apply sorted_ranked, localeCompare_consistent. }
  pose proof (sorted_app_cross _ _ _ Hs x y Hx Hy) as H.
  unfold ranked_before in H. lia.
Qed.

(** X14. Ranking the ranked output again changes nothing: summarizing the two
    output lists put together gives the same three lists, and the same
    summary altogether when the counts are non-negative with a sum of at most
    2^53, where the total does not depend on the order of the additions. *)
Theorem ranking_idempotent (aiResult : AiResult) :
  let s := summarize localeCompare aiResult in
  let s' := summarize localeCompare
              (mkAiResult (idiom s) (sentiment s) (non_stopwords s ++ stopwords s)) in
  non_stopwords s' = non_stopwords s /\
  stopwords s' = stopwords s /\
  top_5_words s' = top_5_words s /\
  (safe_counts (words aiResult) -> s' = s).
Proof.
  simpl. unfold summarize. simpl.
  set (ws := words aiResult).
  set (ns := nonStopWords localeCompare ws).
  set (st := stopWords localeCompare ws).
  assert (Hns : forall x, In x ns -> isStopWord x = false).
  { intros x Hx. unfold ns, nonStopWords in Hx. apply in_sorted_filter in Hx.
    now apply negb_true_iff. }
  assert (Hst : forall x, In x st -> isStopWord x = true).
  { intros x Hx. unfold st, stopWords in Hx. now apply in_sorted_filter in Hx. }
  assert (En : nonStopWords localeCompare (ns ++ st) = ns).
  { unfold nonStopWords at 1. rewrite filter_app.
    rewrite (filter_all _ ns), (filter_none _ st), app_nil_r.
    - apply sort_of_sorted.
      apply sort_sorted, sortByCountAndAlpha_consistent, localeCompare_consistent.
    - intros x Hx. now rewrite (Hst x Hx).
    - intros x Hx. now rewrite (Hns x Hx). }
  assert (Es : stopWords localeCompare (ns ++ st) = st).
  { unfold stopWords at 1. rewrite filter_app.
    rewrite (filter_none _ ns), (filter_all _ st); simpl.
    - apply sort_of_sorted.
      apply sort_sorted, sortByCountAndAlpha_consistent, localeCompare_consistent.
    - exact Hst.
    - exact Hns. }
  unfold top5NonStopWords. rewrite En, Es.
  split; [reflexivity|]. split; [reflexivity|]. split; [reflexivity|].
  intros Hsafe. f_equal.
  pose proof (partition_perm localeCompare ws) as HP. fold ns st in HP.
  rewrite (total_words_exact ws Hsafe).
  rewrite (total_words_exact (ns ++ st)
             (safe_counts_perm _ _ (Permutation_sym HP) Hsafe)).
  apply sum_list_perm, Permutation_map, HP.
Qed.

Lemma sort_perm_invariant (p : WordStat -> bool) (ws ws' : list WordStat) :
  Permutation ws ws' ->
  (forall a b, In a ws -> In b ws -> p a = true -> p b = true ->
               ties (sortByCountAndAlpha localeCompare) a b = true -> a = b) ->
  sort (sortByCountAndAlpha localeCompare) (filter p ws)
  = sort (sortByCountAndAlpha localeCompare) (filter p ws').
Proof.
  intros HP Hties.
  pose proof (sortByCountAndAlpha_consistent _ localeCompare_consistent) as Hc.
  apply (stable_sorted_unique _ Hc); try apply (sort_sorted _ Hc).
  - eapply perm_trans; [apply sort_perm|].
    eapply perm_trans; [apply filter_perm, HP|].
    apply Permutation_sym, sort_perm.
  - intros k. rewrite !(sort_stable _ Hc).
    apply perm_all_equal; [apply filter_perm, filter_perm, HP|].
    intros x y Hx Hy.
    apply filter_In in Hx, Hy. destruct Hx as [Hx Tx], Hy as [Hy Ty].
    apply filter_In in Hx, Hy. destruct Hx as [Hx Px], Hy as [Hy Py].
    apply Hties; try assumption.
    unfold ties in *. apply Z.eqb_eq in Tx, Ty. apply Z.eqb_eq.
    exact (ties_join _ Hc k x y Tx Ty).
Qed.

(** X15. The three output lists do not depend on the order in which the
    model lists the words, provided no two distinct entries with the same
    flag tie (same count, words that collate equal); neither does the whole
    summary when the counts are non-negative with a sum of at most 2^53. *)
Theorem ranking_order_independent (i s : JsString.t) (ws ws' : list WordStat)
  (Hperm : Permutation ws ws')
  (Hties : forall a b, In a ws -> In b ws ->
                       isStopWord a = isStopWord b ->
                       ties (sortByCountAndAlpha localeCompare) a b = true -> a = b) :
  let r := summarize localeCompare (mkAiResult i s ws) in
  let r' := summarize localeCompare (mkAiResult i s ws') in
  non_stopwords r = non_stopwords r' /\
  stopwords r = stopwords r' /\
  top_5_words r = top_5_words r' /\
  (safe_counts ws -> r = r').
Proof.
  unfold summarize. simpl.
  assert (En : nonStopWords localeCompare ws = nonStopWords localeCompare ws').
  { unfold nonStopWords. apply sort_perm_invariant.
    - exact Hperm.
    - intros a b Ha Hb Pa Pb. apply Hties; try assumption.
      apply negb_true_iff in Pa, Pb. congruence. }
  assert (Es : stopWords localeCompare ws = stopWords localeCompare ws').
  { unfold stopWords. apply sort_perm_invariant.
    - exact Hperm.
    - intros a b Ha Hb Pa Pb. apply Hties; try assumption. congruence. }
  unfold top5NonStopWords. rewrite En, Es.
  split; [reflexivity|]. split; [reflexivity|]. split; [reflexivity|].
  intros Hsafe. f_equal.
  rewrite (total_words_exact ws Hsafe).
  rewrite (total_words_exact ws' (safe_counts_perm _ _ Hperm Hsafe)).
  apply sum_list_perm, Permutation_map, Hperm.
Qed.

End RankingMore.

Lemma top_5_most_frequent_witness :
  let aiResult := mkAiResult [] [] example_seven in
  let three := mkWordStat (js "three") 3 false in
  let two := mkWordStat (js "two") 2 false in
  consistent JsString.codeUnitCompare /\
  In three (top_5_words (summarize JsString.codeUnitCompare aiResult)) /\
  In two (skipn 5 (non_stopwords (summarize JsString.codeUnitCompare aiResult))) /\
  count two <= count three.
Proof.
  cbv zeta.
  assert (Hx : In (mkWordStat (js "three") 3 false)
                 (top_5_words (summarize JsString.codeUnitCompare
                                 (mkAiResult [] [] example_seven))))
    by (vm_compute; tauto).
  assert (Hy : In (mkWordStat (js "two") 2 false)
                 (skipn 5 (non_stopwords (summarize JsString.codeUnitCompare
                                            (mkAiResult [] [] example_seven)))))
    by (vm_compute; tauto).
  split; [exact codeUnitCompare_consistent|]. split; [exact Hx|].
  split; [exact Hy|].
  destruct (top_5_most_frequent JsString.codeUnitCompare codeUnitCompare_consistent
              (mkAiResult [] [] example_seven)
              (mkWordStat (js "three") 3 false) Hx) as [_ [_ Hmost]].
  exact (Hmost (mkWordStat (js "two") 2 false) Hy).
Defined.

Example top_5_of_example_seven :
  map count (top_5_words (summarize JsString.codeUnitCompare
                            (mkAiResult [] [] example_seven)))
  = [7; 6; 5; 4; 3] /\
  map count (skipn 5 (non_stopwords (summarize JsString.codeUnitCompare
                                       (mkAiResult [] [] example_seven))))
  = [2; 1].
Proof. split; reflexivity. Qed.

Lemma safe_counts_example : safe_counts (words example_ai).
Proof. split; [repeat constructor; simpl; lia | vm_compute; discriminate]. Qed.

Lemma ranking_idempotent_witness :
  consistent JsString.codeUnitCompare /\
  safe_counts (words example_ai) /\
  (let s := summarize JsString.codeUnitCompare example_ai in
   summarize JsString.codeUnitCompare
     (mkAiResult (idiom s) (sentiment s) (non_stopwords s ++ stopwords s))
   = s).
Proof.
  split; [exact codeUnitCompare_consistent|].
  split; [exact safe_counts_example|].
  apply (ranking_idempotent JsString.codeUnitCompare codeUnitCompare_consistent
           example_ai).
  exact safe_counts_example.
Defined.

(** Beyond 2^53 the second pass adds in another order and rounds. *)
Example ranking_twice_rounds :
  let s := summarize JsString.codeUnitCompare (mkAiResult [] [] (rev large_counts)) in
  let s' := summarize JsString.codeUnitCompare
              (mkAiResult [] [] (non_stopwords s ++ stopwords s)) in
  total_words s = 9007199254740994 /\ total_words s' = 9007199254740992.
Proof. split; reflexivity. Qed.

Lemma ranking_order_independent_witness :
  consistent JsString.codeUnitCompare /\
  Permutation example_words (rev example_words) /\
  safe_counts example_words /\
  summarize JsString.codeUnitCompare (mkAiResult [] [] example_words)
  = summarize JsString.codeUnitCompare (mkAiResult [] [] (rev example_words)).
Proof.
  split; [exact codeUnitCompare_consistent|].
  split; [apply Permutation_rev|].
  split; [exact safe_counts_example|].
  apply (ranking_order_independent JsString.codeUnitCompare codeUnitCompare_consistent).
  - apply Permutation_rev.
  - intros a b [<-|[<-|[<-|[]]]] [<-|[<-|[<-|[]]]] Hf Ht;
      try reflexivity; try discriminate Hf; vm_compute in Ht; discriminate Ht.
  - exact safe_counts_example.
Defined.

(** With a tie between distinct entries the order of the input shows. *)
Example ranking_order_shows_on_ties :
  let a := mkWordStat (js "x") 1 false in
  let b := mkWordStat (js "y") 1 false in
  non_stopwords (summarize (fun _ _ => 0) (mkAiResult [] [] [a; b])) = [a; b] /\
  non_stopwords (summarize (fun _ _ => 0) (mkAiResult [] [] [b; a])) = [b; a].
Proof. split; reflexivity. Qed.

(** * More on the search *)

Lemma substring_of_trans (a b c : JsString.t) :
  substring_of a b -> substring_of b c -> substring_of a c.
Proof.
  intros [p1 [q1 ->]] [p2 [q2 ->]].
  exists (p2 ++ p1), (q1 ++ q2). now rewrite !app_assoc.
Qed.

Lemma substring_of_length (a b : JsString.t) :
  substring_of a b -> (List.length a <= List.length b)%nat.
Proof. intros [p [q ->]]. rewrite !length_app. lia. Qed.

(** X16. When a term is found, a record is stored that is at least as long
    as the term, and every term included in the found one is found in the
    same world as well. *)
Theorem found_terms_closed (term u : JsString.t) (this this1 : TextProcessor)
  (w w1 : World)
  (Hrun : searchTerm term this w = (Normal this1, w1))
  (Hfound : termFoundedInLastAnalysis this1 = true)
  (Hsub : JsString.includes term u = true) :
  (exists stored, stored_text w = Some stored /\
                  (List.length term <= List.length stored)%nat) /\
  (exists w2, searchTerm u this w = (Normal (set_termFounded true this), w2)).
Proof.
  destruct (storage_ok w) eqn:Hok.
  - destruct (searchTerm_read_ok term this w Hok) as [w' [Hrun' _]].
    rewrite Hrun in Hrun'. injection Hrun' as -> _. simpl in Hfound.
    destruct (searchTerm_read_ok u this w Hok) as [w2 [Hrun2 _]].
    destruct (stored_text w) as [stored|]; [|discriminate].
    apply includes_spec in Hfound, Hsub. split.
    + exists stored. split; [reflexivity|]. now apply substring_of_length.
    + exists w2. rewrite Hrun2.
      assert (H : JsString.includes stored u = true)
        by (apply includes_spec; eapply substring_of_trans; eassumption).
      now rewrite H.
  - destruct (searchTerm_read_fails term this w Hok) as [w' [msg [Hrun' _]]].
    rewrite Hrun in Hrun'. injection Hrun' as -> _. discriminate.
Qed.

Lemma found_terms_closed_witness :
  let this := new_TextProcessor (js "sk-test") in
  let w := set_table [mkRow 1 (js "Hello World") 0] 1 (fresh_world failing_model) in
  termFoundedInLastAnalysis (set_termFounded true this) = true /\
  JsString.includes (js "lo Wor") (js "o W") = true /\
  exists w2, searchTerm (js "o W") this w = (Normal (set_termFounded true this), w2).
Proof.
  cbv zeta. split; [reflexivity|]. split; [reflexivity|].
  exact (proj2 (found_terms_closed (js "lo Wor") (js "o W")
                  (new_TextProcessor (js "sk-test"))
                  (set_termFounded true (new_TextProcessor (js "sk-test")))
                  (set_table [mkRow 1 (js "Hello World") 0] 1 (fresh_world failing_model))
                  _ eq_refl eq_refl eq_refl)).
Defined.

(** * The component in front of the analysis route *)

Lemma falsy_trim (t : JsString.t) : falsy (Some (JsString.trim t)) = blank t.
Proof.
  destruct (blank t) eqn:Hb.
  - apply trim_nil_iff in Hb. now rewrite Hb.
  - destruct (JsString.trim t) eqn:E; [|reflexivity].
    apply trim_nil_iff in E. congruence.
Qed.

(** X17. On a text of white space only (the empty text included) the
    component raises its alert and nothing else: text, result and loading
    stay as they were, and the world of the backend is exactly as it was
    (table, sequence, console, outcomes the storage still holds). *)
Theorem handleAnalyze_blank (localeCompare : JsString.t -> JsString.t -> Z)
  (ui : TextAnalyzer) (w : World) (Hblank : blank (ui_text ui) = true) :
  handleAnalyze localeCompare ui w
  = (Normal (alert "Please enter some text." ui), w).
Proof.
  unfold handleAnalyze. rewrite falsy_trim, Hblank. reflexivity.
Qed.

Lemma handleAnalyze_blank_witness :
  blank (ui_text (new_TextAnalyzer (js "  "))) = true /\
  handleAnalyze JsString.codeUnitCompare (new_TextAnalyzer (js "  "))
    (fresh_world failing_model)
  = (Normal (alert "Please enter some text." (new_TextAnalyzer (js "  "))),
     fresh_world failing_model).
Proof.
  split; [reflexivity|].
  apply (handleAnalyze_blank JsString.codeUnitCompare (new_TextAnalyzer (js "  "))).
  reflexivity.
Defined.

(** X18. On any other text, with the request answered by this backend, the
    component never raises an alert: it ends with loading off and the
    response body as its result, which is the error object when the model
    call failed, since the route answers 200 then too. *)
Theorem handleAnalyze_shows_response (localeCompare : JsString.t -> JsString.t -> Z)
  (ui : TextAnalyzer) (w : World) (Htext : blank (ui_text ui) = false) :
  exists ui' w',
    handleAnalyze localeCompare ui w = (Normal ui', w') /\
    ui_result ui'
    = Some (json_of_Output
              (Some match model w (PUBLIC_API_KEY w) (ui_text ui) with
                    | Some aiResult => Summary (summarize localeCompare aiResult)
                    | None => ErrorOutput "Error retrieving analysis from AI"
                    end)) /\
    ui_alerts ui' = ui_alerts ui /\
    ui_errors ui' = ui_errors ui /\
    ui_loading ui' = false /\
    ui_text ui' = ui_text ui.
Proof.
  assert (Hacc : accepted_text (ui_text ui) = true)
    by (rewrite accepted_text_blank, Htext; reflexivity).
  unfold handleAnalyze. rewrite falsy_trim, Htext.
  unfold bind at 1, try_catch, bind at 1, axios_post_analyze_text, bind at 1.
  cbn [ui_text setLoading].
  rewrite (post_analyze_text_run localeCompare (ui_text ui) w Hacc).
  cbn [status Z.leb Z.ltb Z.compare Pos.compare Pos.compare_cont andb body ret].
  eexists. eexists. split; [reflexivity|]. repeat split.
Qed.

Lemma handleAnalyze_shows_response_witness :
  blank (ui_text (new_TextAnalyzer (js "Hello World"))) = false /\
  exists ui' w',
    handleAnalyze JsString.codeUnitCompare (new_TextAnalyzer (js "Hello World"))
      (fresh_world failing_model) = (Normal ui', w') /\
    ui_result ui' = Some (error_body "Error retrieving analysis from AI") /\
    ui_alerts ui' = [].
Proof.
  split; [reflexivity|].
  destruct (handleAnalyze_shows_response JsString.codeUnitCompare
              (new_TextAnalyzer (js "Hello World")) (fresh_world failing_model)
              eq_refl)
    as [ui' [w' [Hrun [Hres [Hal _]]]]].
  exists ui', w'. split; [exact Hrun|]. split; [exact Hres | exact Hal].
Defined.
